(** * Registry synchronisation and CSV reconciliation engine

    A shallow embedding of the two source files of the portal:

    - [src/pages/AdminPortal.tsx]: [parseCSVLine] and the [reader.onload]
      body of [handleMasterSync] (header resolution, [parseVal], the row loop
      that fills [userMap] and [fileMap], the call of the import callback);
    - the application root ([src/unnamed/part_000]): [AsyncStorage],
      [syncToCloud], [handleMassImport], [userCnicNormalized], [userFiles].

    JavaScript values are modelled as the code has them: a string is its
    sequence of UTF-16 code units, a Number is an IEEE 754 binary64 float
    (the kernel's primitive floats), a [Map] is an insertion-ordered
    association list, and [undefined] is [None]. *)

From Stdlib Require Import Ascii String.
From Stdlib Require Import List ZArith NArith Bool Lia Permutation Sorted.
From Stdlib Require Import Floats.PrimFloat Floats.SpecFloat Floats.FloatOps.
Import ListNotations.

Set Implicit Arguments.

(* ================================================================== *)
(** * The JavaScript built-ins the code relies on *)
(* ================================================================== *)

Module JS.

(** A string is a list of UTF-16 code units. *)
Definition char := N.
Definition jsstring := list char.

(** String literals of the source, written as Rocq strings. *)
Definition js (s : String.string) : jsstring :=
  map Ascii.N_of_ascii (String.list_ascii_of_string s).
Arguments js s%_string.

Fixpoint str_eqb (a b : jsstring) : bool :=
  match a, b with
  | [], [] => true
  | x :: a', y :: b' => N.eqb x y && str_eqb a' b'
  | _, _ => false
  end.

Definition isEmpty (s : jsstring) : bool :=
  match s with [] => true | _ => false end.

(** [x || d] on a possibly undefined string: the empty string and
    [undefined] are falsy. *)
Definition orStr (o : option jsstring) (d : jsstring) : jsstring :=
  match o with
  | Some (c :: s) => c :: s
  | _ => d
  end.

(** ** Characters *)

Definition LF : char := 10%N.
Definition CR : char := 13%N.
Definition BOM : char := 65279%N. (* U+FEFF *)

Definition isDigit (c : char) : bool := (48 <=? c)%N && (c <=? 57)%N.

(** WhiteSpace and LineTerminator of ECMAScript: what [trim] removes and
    what [parseFloat] skips. *)
Definition isWhiteSpace (c : char) : bool :=
  existsb (N.eqb c)
    [9; 10; 11; 12; 13; 32; 160; 5760; 8232; 8233; 8239; 8287; 12288; 65279]%N
  || ((8192 <=? c)%N && (c <=? 8202)%N).

Fixpoint trimStart (s : jsstring) : jsstring :=
  match s with
  | c :: s' => if isWhiteSpace c then trimStart s' else s
  | [] => []
  end.

Definition trimEnd (s : jsstring) : jsstring := rev (trimStart (rev s)).

Definition trim (s : jsstring) : jsstring := trimEnd (trimStart s).

(** Case mapping.  The code only ever compares the mapped string with an
    ASCII literal: [toUpperCase] with ['NULL'], [toLowerCase] with a header
    alias.  The mapping is written for the code units that decide such a
    comparison: the ASCII letters, and for [toLowerCase] the Kelvin sign
    U+212A, the one other code unit whose lower case is an ASCII letter.
    Every other code unit is kept.  Its real image is either not ASCII or
    (upper case of the sharp s, the dotless i, the long s and the
    ligatures) has a letter that ['NULL'] lacks, so no comparison
    changes. *)
Definition upperChar (c : char) : char :=
  if (97 <=? c)%N && (c <=? 122)%N then (c - 32)%N else c.

Definition lowerChar (c : char) : char :=
  if (65 <=? c)%N && (c <=? 90)%N then (c + 32)%N
  else if (c =? 8490)%N then 107%N else c.

Definition toUpperCase (s : jsstring) : jsstring := map upperChar s.
Definition toLowerCase (s : jsstring) : jsstring := map lowerChar s.

(** ** [String.prototype.split] with the pattern [/\r?\n/] *)

Fixpoint splitLinesFrom (cur s : jsstring) : list jsstring :=
  match s with
  | [] => [cur]
  | c :: rest =>
      if (c =? LF)%N then cur :: splitLinesFrom [] rest
      else if (c =? CR)%N
              && match rest with d :: _ => (d =? LF)%N | [] => false end
      then splitLinesFrom cur rest (* the [\r] of a [\r\n] separator *)
      else splitLinesFrom (cur ++ [c]) rest
  end.

Definition splitLines (s : jsstring) : list jsstring := splitLinesFrom [] s.

(** [s.replace(/^\uFEFF/, '')] *)
Definition stripBOM (s : jsstring) : jsstring :=
  match s with
  | c :: s' => if (c =? BOM)%N then s' else s
  | [] => []
  end.

(** [Array.prototype.indexOf] on an array of strings; [None] is [-1]. *)
Fixpoint indexOf (l : list jsstring) (x : jsstring) : option nat :=
  match l with
  | [] => None
  | y :: l' =>
      if str_eqb y x then Some 0
      else match indexOf l' x with Some i => Some (S i) | None => None end
  end.

(** ** Numbers *)

Definition number := float.

(** [x || 0] on a Number: [NaN], [+0] and [-0] are falsy. *)
Definition orZero (x : number) : number :=
  if is_nan x || is_zero x then zero else x.

(** The Number value of [m * 10^e] for [m >= 0]: the nearest binary64,
    ties to even. *)
Definition roundDecimal (m e : Z) : spec_float :=
  match m with
  | Z0 => S754_zero false
  | Zneg _ => S754_nan
  | Zpos _ =>
      if (0 <=? e)%Z then binary_normalize prec emax (m * 10 ^ e)%Z 0 false
      else
        let q := (10 ^ (- e))%Z in
        let k := Z.max 0 (55 + Zdigits2 q - Zdigits2 m)%Z in
        let n := (m * 2 ^ k)%Z in
        let r := (n mod q)%Z in
        let l := if (r =? 0)%Z then loc_Exact
                 else loc_Inexact (2 * r ?= q)%Z in
        binary_round_aux prec emax false (n / q)%Z (- k)%Z l
  end.

Definition numberOfDecimal (neg : bool) (m e : Z) : number :=
  let x := SF2Prim (roundDecimal m e) in
  if neg then (- x)%float else x.

Fixpoint spanDigits (s : jsstring) : jsstring * jsstring :=
  match s with
  | c :: s' =>
      if isDigit c then let (d, r) := spanDigits s' in (c :: d, r)
      else ([], s)
  | [] => ([], [])
  end.

Definition digitsValue (ds : jsstring) : Z :=
  fold_left (fun a c => (10 * a + (Z.of_N c - 48))%Z) ds 0%Z.

Fixpoint startsWith (p s : jsstring) : bool :=
  match p, s with
  | [], _ => true
  | x :: p', y :: s' => (x =? y)%N && startsWith p' s'
  | _ :: _, [] => false
  end.

(** The ExponentPart of a StrDecimalLiteral at the head of [s], when
    there is one: [e] or [E], an optional sign, at least one digit. *)
Definition exponentPart (s : jsstring) : Z :=
  match s with
  | c :: s1 =>
      if (c =? 101)%N || (c =? 69)%N then
        let '(neg, s2) :=
          match s1 with
          | d :: s2 =>
              if (d =? 45)%N then (true, s2)
              else if (d =? 43)%N then (false, s2)
              else (false, s1)
          | [] => (false, s1)
          end in
        match fst (spanDigits s2) with
        | [] => 0%Z
        | ds => if neg then (- digitsValue ds)%Z else digitsValue ds
        end
      else 0%Z
  | [] => 0%Z
  end.

(** [parseFloat]: skip leading white space, read the longest prefix that
    is a StrDecimalLiteral, [NaN] when there is none. *)
Definition parseFloat (s : jsstring) : number :=
  let t := trimStart s in
  let '(neg, u) :=
    match t with
    | c :: t' =>
        if (c =? 45)%N then (true, t')
        else if (c =? 43)%N then (false, t')
        else (false, t)
    | [] => (false, t)
    end in
  if startsWith (js "Infinity") u
  then (if neg then neg_infinity else infinity)
  else
    let (ip, r1) := spanDigits u in
    let '(fp, r2) :=
      match r1 with
      | c :: r1' =>
          if (c =? 46)%N then
            let (fp, r2) := spanDigits r1' in
            match ip, fp with
            | [], [] => ([], r1) (* a lone dot is not part of a literal *)
            | _, _ => (fp, r2)
            end
          else ([], r1)
      | [] => ([], r1)
      end in
    match ip ++ fp with
    | [] => nan
    | ds =>
        numberOfDecimal neg (digitsValue ds)
          (exponentPart r2 - Z.of_nat (length fp))%Z
    end.

(** ** [Map] with string keys: insertion-ordered, [set] on a present key
    replaces the value in place. *)
Section MapModel.
Variable V : Type.

Definition map_t := list (jsstring * V).

Fixpoint get (m : map_t) (k : jsstring) : option V :=
  match m with
  | [] => None
  | (k', v) :: m' => if str_eqb k' k then Some v else get m' k
  end.

Definition has (m : map_t) (k : jsstring) : bool :=
  match get m k with Some _ => true | None => false end.

Fixpoint set (m : map_t) (k : jsstring) (v : V) : map_t :=
  match m with
  | [] => [(k, v)]
  | (k', v') :: m' =>
      if str_eqb k' k then (k', v) :: m' else (k', v') :: set m' k v
  end.

Definition keys (m : map_t) : list jsstring := map fst m.
Definition values (m : map_t) : list V := map snd m.
End MapModel.

End JS.

Import JS.

(* ================================================================== *)
(** * The entities ([../types], as the object literals build them) *)
(* ================================================================== *)

Module User.
Record t := mk {
  id : jsstring; cnic : jsstring; name : jsstring; email : jsstring;
  phone : jsstring; role : jsstring; status : jsstring; password : jsstring
}.
End User.

Module Transaction.
Record t := mk {
  seq : nat;            (* the row's ordinal, an integer-valued Number *)
  transid : Z;          (* [Date.now() + idx], an integer-valued Number *)
  line_id : number; shortname : jsstring; duedate : jsstring;
  receivable : number; u_intno : number; u_intname : jsstring;
  transtype : jsstring; itemcode : jsstring; plottype : jsstring;
  currency : jsstring; description : jsstring; doctotal : number;
  status : jsstring; balance : number; balduedeb : number;
  paysrc : number; amount_paid : number;
  receipt_date : option jsstring; mode : option jsstring;
  surcharge : number
}.
End Transaction.

Module PropertyFile.
Record t := mk {
  fileNo : jsstring; currencyNo : jsstring; plotSize : jsstring;
  plotValue : number; balance : number; receivable : number;
  totalReceivable : number; paymentReceived : number;
  surcharge : number; overdue : number;
  ownerName : jsstring; ownerCNIC : jsstring; fatherName : jsstring;
  cellNo : jsstring; regDate : jsstring; address : jsstring;
  plotNo : jsstring; block : jsstring; park : jsstring;
  corner : jsstring; mainBoulevard : jsstring;
  transactions : list Transaction.t
}.

(** The three in-place mutations of the row loop. *)
Definition addPaymentReceived (x : number) (f : t) : t :=
  mk (fileNo f) (currencyNo f) (plotSize f) (plotValue f) (balance f)
     (receivable f) (totalReceivable f) (paymentReceived f + x)%float
     (surcharge f) (overdue f) (ownerName f) (ownerCNIC f) (fatherName f)
     (cellNo f) (regDate f) (address f) (plotNo f) (block f) (park f)
     (corner f) (mainBoulevard f) (transactions f).

Definition addBalance (x : number) (f : t) : t :=
  mk (fileNo f) (currencyNo f) (plotSize f) (plotValue f)
     (balance f + x)%float
     (receivable f) (totalReceivable f) (paymentReceived f)
     (surcharge f) (overdue f) (ownerName f) (ownerCNIC f) (fatherName f)
     (cellNo f) (regDate f) (address f) (plotNo f) (block f) (park f)
     (corner f) (mainBoulevard f) (transactions f).

Definition pushTransaction (x : Transaction.t) (f : t) : t :=
  mk (fileNo f) (currencyNo f) (plotSize f) (plotValue f) (balance f)
     (receivable f) (totalReceivable f) (paymentReceived f)
     (surcharge f) (overdue f) (ownerName f) (ownerCNIC f) (fatherName f)
     (cellNo f) (regDate f) (address f) (plotNo f) (block f) (park f)
     (corner f) (mainBoulevard f) (transactions f ++ [x]).
End PropertyFile.

(** [s.replace(/[^0-9X]/g, '')]: the one normalisation of an identity
    number, written inline at each of its uses in the source. *)
Definition isCnicChar (c : char) : bool := isDigit c || (c =? 88)%N.
Definition normalizeCNIC (s : jsstring) : jsstring := filter isCnicChar s.

(** What the import callback receives: [{ users, files }]. *)
Record batch := mkBatch {
  users : list User.t;
  files : list PropertyFile.t
}.

(* ================================================================== *)
(** * [src/pages/AdminPortal.tsx] *)
(* ================================================================== *)

Module AdminPortal.

Fixpoint parseCSVLineFrom (cur : jsstring) (inQ : bool) (line : jsstring)
  : list jsstring :=
  match line with
  | [] => [trim cur]
  | c :: rest =>
      if (c =? 34)%N then parseCSVLineFrom cur (negb inQ) rest
      else if (c =? 44)%N && negb inQ
           then trim cur :: parseCSVLineFrom [] inQ rest
           else parseCSVLineFrom (cur ++ [c]) inQ rest
  end.

Definition parseCSVLine (line : jsstring) : list jsstring :=
  parseCSVLineFrom [] false line.

(** [text.split(/\r?\n/).filter(l => l.trim() !== '')] after the
    byte-order mark is removed. *)
Definition nonEmptyLines (text : jsstring) : list jsstring :=
  filter (fun l => negb (isEmpty (trim l))) (splitLines (stripBOM text)).

Definition normHeaders (headerLine : jsstring) : list jsstring :=
  map (fun h => toLowerCase (trim h)) (parseCSVLine headerLine).

Fixpoint getIdx (normH : list jsstring) (names : list jsstring)
  : option nat :=
  match names with
  | [] => None
  | n :: names' =>
      match indexOf normH (toLowerCase n) with
      | Some i => Some i
      | None => getIdx normH names'
      end
  end.

Definition col (normH : list jsstring) (arr : list jsstring)
    (names : list jsstring) : option jsstring :=
  match getIdx normH names with
  | Some i =>
      match nth_error arr i with
      | Some s => Some (trim s)
      | None => None
      end
  | None => None
  end.

Definition parseVal (v : option jsstring) : number :=
  match v with
  | None => zero
  | Some s =>
      if isEmpty s || str_eqb (toUpperCase s) (js "NULL")
         || str_eqb s (js "-")
      then zero
      else orZero
             (parseFloat
                (filter (fun c => negb ((c =? 40)%N || (c =? 41)%N))
                   (filter (fun c => negb (c =? 44)%N) s)))
  end.

Record maps := mkMaps {
  userMap : map_t User.t;
  fileMap : map_t PropertyFile.t
}.

Section RowLoop.
(** [now idx] is what [Date.now()] returns while row [idx] is handled. *)
Variable now : nat -> Z.
Variable normH : list jsstring.

(** The two natural keys of a row. *)
Definition rawCNICOf (cols : list jsstring) : jsstring :=
  orStr (col normH cols [js "ocnic"; js "cnic"; js "u_ocnic"]) [].

Definition itemCodeOf (cols : list jsstring) : jsstring :=
  orStr (col normH cols [js "itemcode"; js "item_code"; js "u_itemcode"])
        [].

Definition newUser (cols : list jsstring) (rawCNIC normCNIC : jsstring)
  : User.t :=
  {| User.id := js "user-" ++ normCNIC;
     User.cnic := rawCNIC;
     User.name :=
       orStr (col normH cols [js "oname"; js "ownername"; js "name"])
             (js "SAP Member");
     User.email := normCNIC ++ js "@dinproperties.com.pk";
     User.phone := orStr (col normH cols [js "ocell"; js "cellno"]) (js "-");
     User.role := js "CLIENT";
     User.status := js "Active";
     User.password := js "password123" |}.

Definition newFile (cols : list jsstring) (rawCNIC itemCode : jsstring)
    (owner : User.t) : PropertyFile.t :=
  let c := col normH cols in
  {| PropertyFile.fileNo := itemCode;
     PropertyFile.currencyNo :=
       orStr (c [js "currencyno"; js "currency"]) (js "-");
     PropertyFile.plotSize :=
       orStr (c [js "dscription"; js "description"; js "size"]) (js "Plot");
     PropertyFile.plotValue := parseVal (c [js "doctotal"]);
     PropertyFile.balance := zero;
     PropertyFile.receivable := zero;
     PropertyFile.totalReceivable := zero;
     PropertyFile.paymentReceived := zero;
     PropertyFile.surcharge := zero;
     PropertyFile.overdue := zero;
     PropertyFile.ownerName := User.name owner;
     PropertyFile.ownerCNIC := rawCNIC;
     PropertyFile.fatherName :=
       orStr (c [js "ofatname"; js "fathername"]) (js "-");
     PropertyFile.cellNo := orStr (c [js "ocell"; js "cellno"]) (js "-");
     PropertyFile.regDate :=
       orStr (c [js "otrfdate"; js "regdate"]) (js "-");
     PropertyFile.address :=
       orStr (c [js "opraddress"; js "address"]) (js "-");
     PropertyFile.plotNo :=
       orStr (c [js "plot"; js "plotno"; js "u_plotno"]) (js "-");
     PropertyFile.block := orStr (c [js "block"; js "u_block"]) (js "-");
     PropertyFile.park := orStr (c [js "park"; js "u_park"]) (js "-");
     PropertyFile.corner :=
       orStr (c [js "corner"; js "u_corner"]) (js "-");
     PropertyFile.mainBoulevard :=
       orStr (c [js "mb"; js "mainboulevard"; js "u_mainbu"]) (js "-");
     PropertyFile.transactions := [] |}.

Definition paidValOf (cols : list jsstring) : number :=
  parseVal (col normH cols [js "reconsum"; js "paid"]).

Definition osValOf (cols : list jsstring) : number :=
  parseVal (col normH cols [js "balduedeb"; js "balance"]).

Definition newTransaction (cols : list jsstring) (idx : nat)
    (itemCode : jsstring) (plotValue paidVal osVal : number)
  : Transaction.t :=
  let c := col normH cols in
  {| Transaction.seq := idx;
     Transaction.transid := (now idx + Z.of_nat idx)%Z;
     Transaction.line_id := zero;
     Transaction.shortname := itemCode;
     Transaction.duedate := orStr (c [js "duedate"]) (js "-");
     Transaction.receivable := parseVal (c [js "receivable"]);
     Transaction.u_intno := parseVal (c [js "u_intno"]);
     Transaction.u_intname := orStr (c [js "u_intname"]) [];
     Transaction.transtype := js "13";
     Transaction.itemcode := itemCode;
     Transaction.plottype := js "Res";
     Transaction.currency := js "PKR";
     Transaction.description := [];
     Transaction.doctotal := plotValue;
     Transaction.status := js "Synced";
     Transaction.balance := zero;
     Transaction.balduedeb := osVal;
     Transaction.paysrc := zero;
     Transaction.amount_paid := paidVal;
     Transaction.receipt_date := c [js "refdate"];
     Transaction.mode := c [js "mode"];
     Transaction.surcharge := parseVal (c [js "markup"; js "surcharge"]) |}.

(** The body of [lines.slice(1).forEach((line, idx) => ...)].  [None]
    is a thrown [TypeError]: reading a property of the [undefined] that
    a [Map.get] under [!] would give for a missing key. *)
Definition processRow (m : maps) (idx : nat) (line : jsstring)
  : option maps :=
  let cols := parseCSVLine line in
  let rawCNIC := rawCNICOf cols in
  let normCNIC := normalizeCNIC rawCNIC in
  let itemCode := itemCodeOf cols in
  if isEmpty normCNIC || isEmpty itemCode then Some m
  else
    let userMap1 :=
      if has (userMap m) normCNIC then userMap m
      else set (userMap m) normCNIC (newUser cols rawCNIC normCNIC) in
    match
      (if has (fileMap m) itemCode then Some (fileMap m)
       else match get userMap1 normCNIC with
            | Some owner =>
                Some (set (fileMap m) itemCode
                        (newFile cols rawCNIC itemCode owner))
            | None => None
            end)
    with
    | None => None
    | Some fileMap1 =>
        match get fileMap1 itemCode with
        | None => None
        | Some prop =>
            let paidVal := paidValOf cols in
            let osVal := osValOf cols in
            let prop1 := PropertyFile.addPaymentReceived paidVal prop in
            let prop2 := PropertyFile.addBalance osVal prop1 in
            let prop3 :=
              PropertyFile.pushTransaction
                (newTransaction cols idx itemCode
                   (PropertyFile.plotValue prop2) paidVal osVal) prop2 in
            Some {| userMap := userMap1;
                    fileMap := set fileMap1 itemCode prop3 |}
        end
    end.

(** [forEach] over the data rows, each with its index. *)
Fixpoint forEachRow (m : maps) (idx : nat) (rows : list jsstring)
  : option maps :=
  match rows with
  | [] => Some m
  | line :: rows' =>
      match processRow m idx line with
      | Some m' => forEachRow m' (S idx) rows'
      | None => None
      end
  end.
End RowLoop.

(** The [try] block up to the two maps: [None] is a thrown error. *)
Definition ingest (now : nat -> Z) (text : jsstring) : option batch :=
  match nonEmptyLines text with
  | header :: row1 :: rows =>
      match forEachRow now (normHeaders header)
              {| userMap := []; fileMap := [] |} 0 (row1 :: rows) with
      | Some m => Some {| users := values (userMap m);
                          files := values (fileMap m) |}
      | None => None
      end
  | _ => None (* [throw new Error("Format")] *)
  end.

(** What [reader.onload] does to the outside: the call of the import
    callback (with what the callback itself does, [E]), the alerts, and
    the [finally]. *)
Inductive effect (E : Type) : Type :=
| CallImport (e : E)
| Alert (msg : jsstring)
| SetIsProcessing (b : bool).
Arguments CallImport {E} e.
Arguments Alert {E} msg.
Arguments SetIsProcessing {E} b.

Definition onload (E : Type)
    (onImportFullDatabase : option (batch -> option bool -> E))
    (now : nat -> Z) (text : jsstring) : list (effect E) :=
  match ingest now text with
  | Some data =>
      match onImportFullDatabase with
      | Some f => [CallImport (f data (Some true))]
      | None => []
      end
      ++ [Alert (js "Master Sync Complete: All records locked to local registry.")]
      ++ [SetIsProcessing false]
  | None =>
      [Alert (js "Format Error: Verify CSV columns."); SetIsProcessing false]
  end.

End AdminPortal.

(* ================================================================== *)
(** * The application root: storage, remote mirror, merge engine *)
(* ================================================================== *)

Module App.

Definition error := jsstring.

(** A collection snapshot handed to the local store or to the mirror. *)
Inductive snapshot :=
| UsersData (l : list User.t)
| FilesData (l : list PropertyFile.t).

(** What a call does that can be seen from outside, in order. *)
Inductive event :=
| SetIsSyncing (b : bool)
| SetUsers (l : list User.t)
| SetAllFiles (l : list PropertyFile.t)
| IdbOpen                                    (* [indexedDB.open(DB_NAME, 1)] *)
| StorePut (key : jsstring) (value : snapshot) (* [store.put(clone(value), key)] *)
| StoreGet (key : jsstring)
| StoreClear
| ConsoleError (msg : jsstring) (e : error)
| Upsert (dbTable : jsstring) (data : snapshot).

(** ** Promises and [async] functions

    A promise is known by how it settles; [Pending] is a promise none of
    whose callbacks ever fires.  An [async] computation is the events it
    performs and how it ends: normally with a value, by a thrown error, or
    suspended for ever at an [await]. *)
Inductive settled (A : Type) : Type :=
| Fulfilled (a : A)
| Rejected (e : error)
| Pending.
Arguments Fulfilled {A} a.
Arguments Rejected {A} e.
Arguments Pending {A}.

Definition promise := settled.
Definition async (A : Type) : Type := (list event * settled A)%type.

Definition ret {A} (a : A) : async A := ([], Fulfilled a).
Definition emit (e : event) : async unit := ([e], Fulfilled tt).
Definition emitAll (l : list event) : async unit := (l, Fulfilled tt).

(** Sequencing; with a promise-returning call on the left this is
    [await]: a rejection is thrown at the [await], a promise that never
    settles suspends the caller for ever. *)
Definition bind {A B} (c : async A) (k : A -> async B) : async B :=
  match c with
  | (tr, Fulfilled a) => let (tr', r) := k a in (tr ++ tr', r)
  | (tr, Rejected e) => (tr, Rejected e)
  | (tr, Pending) => (tr, Pending)
  end.

Notation "x <- c ;; k" := (bind c (fun x => k))
  (at level 61, c at next level, right associativity).
Notation "c ;;; k" := (bind c (fun _ => k))
  (at level 61, right associativity).

(** [try { body } catch (e) { handler }] *)
Definition tryCatch {A} (body : async A) (handler : error -> async A)
  : async A :=
  match body with
  | (tr, Rejected e) => let (tr', r) := handler e in (tr ++ tr', r)
  | _ => body
  end.

(** [new Promise(executor)]: the executor runs at once; the expression
    itself never throws, an exception in the executor rejects the promise.
    The value is the promise, not its result. *)
Definition newPromise {A} (executor : async A) : async (promise A) :=
  (fst executor, Fulfilled (snd executor)).

(** The end of an [async] function whose body returns [p]: the function's
    promise is resolved with [p] and follows it. *)
Definition resolveWith {A} (body : async (promise A)) : async A :=
  match body with
  | (tr, Fulfilled p) => (tr, p)
  | (tr, Rejected e) => (tr, Rejected e)
  | (tr, Pending) => (tr, Pending)
  end.

(** ** IndexedDB, as the browser may behave *)

Inductive txResult :=
| TxThrows (e : error)   (* [db.transaction] or [store.put] throws *)
| TxComplete             (* [transaction.oncomplete] fires *)
| TxError (e : error)    (* [transaction.onerror] fires *)
| TxSilent.              (* neither fires *)

Inductive reqResult :=
| ReqThrows (e : error)
| ReqSuccess (v : option snapshot)  (* [request.result], [undefined] if absent *)
| ReqError (e : error)
| ReqSilent.

Record idb := mkIdb {
  openDB : settled unit;              (* [request.onsuccess] / [onerror] *)
  putTx : jsstring -> txResult;
  getReq : jsstring -> reqResult;
  clearThrows : option error          (* [db.transaction] throws *)
}.

Module AsyncStorage.

Definition getDB (w : idb) : async unit := ([IdbOpen], openDB w).

Definition setItem (w : idb) (key : jsstring) (value : snapshot)
  : async unit :=
  resolveWith
    (tryCatch
       (db <- getDB w ;;
        newPromise
          match putTx w key with
          | TxThrows e => ([], Rejected e)
          | TxComplete => ([StorePut key value], Fulfilled tt)
          | TxError e => ([StorePut key value], Rejected e)
          | TxSilent => ([StorePut key value], Pending)
          end)
       (fun e =>
          emit (ConsoleError (js "Persistence Failure:") e) ;;;
          ret (Fulfilled tt))).

(** [None] is the absence signal: [undefined] from the store, [null]
    from the [catch]. *)
Definition getItem (w : idb) (key : jsstring) : async (option snapshot) :=
  resolveWith
    (tryCatch
       (db <- getDB w ;;
        newPromise
          match getReq w key with
          | ReqThrows e => ([], Rejected e)
          | ReqSuccess v => ([StoreGet key], Fulfilled v)
          | ReqError e => ([StoreGet key], Rejected e)
          | ReqSilent => ([StoreGet key], Pending)
          end)
       (fun e => ret (Fulfilled None))).

Definition clear (w : idb) : async unit :=
  db <- getDB w ;;
  match clearThrows w with
  | Some e => ([], Rejected e)
  | None => emit StoreClear
  end.

End AsyncStorage.

(** ** The in-memory collections *)

Record state := mkState {
  st_users : list User.t;
  st_allFiles : list PropertyFile.t
}.

Definition applyEvent (st : state) (e : event) : state :=
  match e with
  | SetUsers l => {| st_users := l; st_allFiles := st_allFiles st |}
  | SetAllFiles l => {| st_users := st_users st; st_allFiles := l |}
  | _ => st
  end.

Definition applyEvents (st : state) (tr : list event) : state :=
  fold_left applyEvent tr st.

(** ** [syncToCloud]

    [cloud] is [isCloudEnabled && supabase] of the absent [./supabase].
    The call is never awaited by its callers: these are the events up to
    its own [await], the upsert request included. *)
Definition syncToCloud (cloud : bool) (table : jsstring) (data : snapshot)
  : list event :=
  if negb cloud then []
  else
    let dbTable :=
      if str_eqb table (js "users") then js "profiles"
      else if str_eqb table (js "files") then js "property_files"
      else table in
    [SetIsSyncing true; Upsert dbTable data].

(** ** [handleMassImport] *)

Definition truthy (b : option bool) : bool :=
  match b with Some true => true | _ => false end.

(** [new Map(existing.map(v => [key(v), v]))], then
    [fresh.forEach(v => map.set(key(v), v))], then
    [Array.from(map.values())]. *)
Definition overlay {V} (key : V -> jsstring) (existing fresh : list V)
  : list V :=
  let m0 := fold_left (fun m v => set m (key v) v) existing [] in
  let m1 := fold_left (fun m v => set m (key v) v) fresh m0 in
  values m1.

Definition userKey (u : User.t) : jsstring := normalizeCNIC (User.cnic u).
Definition fileKey (f : PropertyFile.t) : jsstring := PropertyFile.fileNo f.

Definition nextUsers (st : state) (data : batch) (isDestructive : option bool)
  : list User.t :=
  if truthy isDestructive then users data
  else overlay userKey (st_users st) (users data).

Definition nextFiles (st : state) (data : batch) (isDestructive : option bool)
  : list PropertyFile.t :=
  if truthy isDestructive then files data
  else overlay fileKey (st_allFiles st) (files data).

Definition handleMassImport (w : idb) (cloud : bool) (st : state)
    (data : batch) (isDestructive : option bool) : async unit :=
  let nu := nextUsers st data isDestructive in
  let nf := nextFiles st data isDestructive in
  emit (SetIsSyncing true) ;;;
  emit (SetUsers nu) ;;;
  emit (SetAllFiles nf) ;;;
  AsyncStorage.setItem w (js "users") (UsersData nu) ;;;
  AsyncStorage.setItem w (js "files") (FilesData nf) ;;;
  emitAll (syncToCloud cloud (js "users") (UsersData nu)) ;;;
  emitAll (syncToCloud cloud (js "files") (FilesData nf)) ;;;
  emit (SetIsSyncing false).

(** ** Owner-to-file matching *)

Definition userCnicNormalized (user : option User.t) : jsstring :=
  match user with
  | Some u => orStr (Some (normalizeCNIC (User.cnic u))) []
  | None => []
  end.

Definition userFiles (allFiles : list PropertyFile.t) (user : option User.t)
  : list PropertyFile.t :=
  filter (fun f => str_eqb (normalizeCNIC (PropertyFile.ownerCNIC f))
                           (userCnicNormalized user)) allFiles.

(** ** The admin page as the root mounts it:
    [onImportFullDatabase={handleMassImport}] *)

Definition masterSync (w : idb) (cloud : bool) (now : nat -> Z)
    (st : state) (text : jsstring)
  : list (AdminPortal.effect (async unit)) :=
  AdminPortal.onload (Some (handleMassImport w cloud st)) now text.

Definition stateAfter (st : state)
    (effs : list (AdminPortal.effect (async unit))) : state :=
  fold_left
    (fun s eff =>
       match eff with
       | AdminPortal.CallImport c => applyEvents s (fst c)
       | _ => s
       end) effs st.

End App.

(* ================================================================== *)
(** * The application root: messages shown to a user *)
(* ================================================================== *)

Module Inbox.

Section Messages.
(** [Message] of the absent [./types], with the three fields the root
    reads. *)
Variable Message : Type.
Variable receiverId : Message -> jsstring.
Variable senderId : Message -> jsstring.
Variable isRead : Message -> bool.

Definition visibleMessages (messages : list Message) (user : User.t)
  : list Message :=
  filter (fun m => str_eqb (User.role user) (js "ADMIN")
                   || str_eqb (receiverId m) (User.id user)
                   || str_eqb (receiverId m) (js "ALL")
                   || str_eqb (senderId m) (User.id user)) messages.

Definition unreadCount (messages : list Message) (user : User.t) : nat :=
  length (filter (fun m => negb (isRead m)
                           && str_eqb (receiverId m) (User.id user))
            (visibleMessages messages user)).
End Messages.

End Inbox.

(* ================================================================== *)
(** * The application root: start-up and factory reset *)
(* ================================================================== *)

Module Lifecycle.

Section Lifecycle.
Variable Notice : Type.
Variable Message : Type.

(** The seed data of the absent [./data]. *)
Record seeds := mkSeeds {
  MOCK_USERS : list User.t;
  MOCK_FILES : list PropertyFile.t;
  MOCK_NOTICES : list Notice;
  MOCK_MESSAGES : list Message
}.
Variable seed : seeds.

Inductive event :=
| SetIsLoading (b : bool)
| SetUsers (l : list User.t)
| SetAllFiles (l : list PropertyFile.t)
| SetNotices (l : list Notice)
| SetMessages (l : list Message)
| SetUser (u : User.t)
| ConsoleError (msg : jsstring) (e : App.error)
| Alert (msg : jsstring)
| Store (e : App.event).  (* what [AsyncStorage] does *)

(** An [async] function of this part: its events and how it ends. *)
Definition life (A : Type) : Type := (list event * App.settled A)%type.

Definition ret {A} (a : A) : life A := ([], App.Fulfilled a).
Definition emit (e : event) : life unit := ([e], App.Fulfilled tt).
Definition throw {A} (e : App.error) : life A := ([], App.Rejected e).

(** [await p] for a promise [p] of the surroundings, known by how it
    settles. *)
Definition await {A} (p : App.settled A) : life A := ([], p).

Definition bind {A B} (c : life A) (k : A -> life B) : life B :=
  match c with
  | (tr, App.Fulfilled a) => let (tr', r) := k a in (tr ++ tr', r)
  | (tr, App.Rejected e) => (tr, App.Rejected e)
  | (tr, App.Pending) => (tr, App.Pending)
  end.

Definition tryCatch {A} (body : life A) (handler : App.error -> life A)
  : life A :=
  match body with
  | (tr, App.Rejected e) => let (tr', r) := handler e in (tr ++ tr', r)
  | _ => body
  end.

(** [try { ... } finally { f }] for an [f] that neither throws nor waits:
    [f] runs when the block is left, normally or by an error. *)
Definition finally {A} (c : life A) (f : list event) : life A :=
  match c with
  | (tr, App.Pending) => (tr, App.Pending)
  | (tr, r) => (tr ++ f, r)
  end.

(** A call of [AsyncStorage], with its events. *)
Definition ofStore {A} (c : App.async A) : life A :=
  (map Store (fst c), snd c).

(** [local || seed]: a stored array, even an empty one, is truthy. *)
Definition orSeed {A} (local : option A) (seedValue : A) : A :=
  match local with Some x => x | None => seedValue end.

(** [l?.length] as a condition. *)
Definition hasLength {A} (l : option (list A)) : bool :=
  match l with Some (_ :: _) => true | _ => false end.

(** How the four [AsyncStorage.getItem] promises of the start-up settle;
    [None] is [undefined] or [null]. *)
Record reads := mkReads {
  readUsers : App.settled (option (list User.t));
  readFiles : App.settled (option (list PropertyFile.t));
  readNotices : App.settled (option (list Notice));
  readMessages : App.settled (option (list Message))
}.

(** [sessionStorage.getItem('DIN_SESSION_USER')]: absent (or empty), a
    text that [JSON.parse] reads as an object with this [id] ([None] when
    it has none), or a text on which [JSON.parse] or [.id] throws. *)
Inductive sessionMarker :=
| NoMarker
| Marker (id : option jsstring)
| BadMarker (e : App.error).

(** [isCloudEnabled && supabase], and how the two [select('*')] promises
    settle, with the [data] of their results. *)
Record remote := mkRemote {
  enabled : bool;
  fetchUsers : App.settled (option (list User.t));
  fetchFiles : App.settled (option (list PropertyFile.t))
}.

Definition findUser (l : list User.t) (id : option jsstring) : option User.t :=
  match id with
  | Some i => find (fun u => str_eqb (User.id u) i) l
  | None => None
  end.

Definition bootstrap (r : reads) (s : sessionMarker) (c : remote)
  : life unit :=
  bind (emit (SetIsLoading true)) (fun _ =>
  finally
    (tryCatch
       (bind (await (readUsers r)) (fun localUsers =>
        bind (await (readFiles r)) (fun localFiles =>
        bind (await (readNotices r)) (fun localNotices =>
        bind (await (readMessages r)) (fun localMessages =>
        bind (emit (SetUsers (orSeed localUsers (MOCK_USERS seed)))) (fun _ =>
        bind (emit (SetAllFiles (orSeed localFiles (MOCK_FILES seed)))) (fun _ =>
        bind (emit (SetNotices (orSeed localNotices (MOCK_NOTICES seed)))) (fun _ =>
        bind (emit (SetMessages (orSeed localMessages (MOCK_MESSAGES seed)))) (fun _ =>
        bind (match s with
              | NoMarker => ret tt
              | BadMarker e => throw e
              | Marker id =>
                  match findUser (orSeed localUsers (MOCK_USERS seed)) id with
                  | Some activeUser => emit (SetUser activeUser)
                  | None => ret tt
                  end
              end) (fun _ =>
        if enabled c then
          bind (await (fetchUsers c)) (fun cloudUsers =>
          bind (await (fetchFiles c)) (fun cloudFiles =>
          bind (if hasLength cloudUsers
                then emit (SetUsers (orSeed cloudUsers []))
                else ret tt) (fun _ =>
          if hasLength cloudFiles
          then emit (SetAllFiles (orSeed cloudFiles []))
          else ret tt)))
        else ret tt))))))))))
       (fun err => emit (ConsoleError (js "Registry Load Error:") err)))
    [SetIsLoading false]).

(** [confirmed] is the answer of [window.confirm]. *)
Definition handleResetDatabase (confirmed : bool) (w : App.idb) : life unit :=
  if negb confirmed then ret tt
  else
    bind (ofStore (App.AsyncStorage.clear w)) (fun _ =>
    bind (emit (SetUsers (MOCK_USERS seed))) (fun _ =>
    bind (emit (SetAllFiles (MOCK_FILES seed))) (fun _ =>
    bind (emit (SetNotices (MOCK_NOTICES seed))) (fun _ =>
    bind (emit (SetMessages (MOCK_MESSAGES seed))) (fun _ =>
    emit (Alert (js "Registry Purged."))))))).

(** The state of the root component that these functions set. *)
Record rootState := mkRoot {
  isLoading : bool;
  users : list User.t;
  allFiles : list PropertyFile.t;
  notices : list Notice;
  messages : list Message;
  user : option User.t
}.

(** The [useState] initial values. *)
Definition initialState : rootState := mkRoot true [] [] [] [] None.

Definition applyEvent (st : rootState) (e : event) : rootState :=
  match e with
  | SetIsLoading b =>
      mkRoot b (users st) (allFiles st) (notices st) (messages st) (user st)
  | SetUsers l =>
      mkRoot (isLoading st) l (allFiles st) (notices st) (messages st) (user st)
  | SetAllFiles l =>
      mkRoot (isLoading st) (users st) l (notices st) (messages st) (user st)
  | SetNotices l =>
      mkRoot (isLoading st) (users st) (allFiles st) l (messages st) (user st)
  | SetMessages l =>
      mkRoot (isLoading st) (users st) (allFiles st) (notices st) l (user st)
  | SetUser u =>
      mkRoot (isLoading st) (users st) (allFiles st) (notices st)
        (messages st) (Some u)
  | _ => st
  end.

Definition applyEvents (st : rootState) (tr : list event) : rootState :=
  fold_left applyEvent tr st.

End Lifecycle.

Arguments SetIsLoading {Notice Message} b.
Arguments SetUsers {Notice Message} l.
Arguments SetAllFiles {Notice Message} l.
Arguments SetNotices {Notice Message} l.
Arguments SetMessages {Notice Message} l.
Arguments SetUser {Notice Message} u.
Arguments ConsoleError {Notice Message} msg e.
Arguments Alert {Notice Message} msg.
Arguments Store {Notice Message} e.
Arguments mkRoot {Notice Message} isLoading users allFiles notices messages user.

End Lifecycle.

(* ================================================================== *)
(** * Vocabulary of the statements *)
(* ================================================================== *)

Import AdminPortal.
Import App.

Definition jsstring_eq_dec : forall a b : jsstring, {a = b} + {a <> b} :=
  list_eq_dec N.eq_dec.

(** A data row with the index [forEach] gives it. *)
Definition row := (nat * jsstring)%type.

Fixpoint indexedFrom (idx : nat) (lines : list jsstring) : list row :=
  match lines with
  | [] => []
  | l :: lines' => (idx, l) :: indexedFrom (S idx) lines'
  end.

(** The sum of a list of Numbers, added left to right from [0] as the row
    loop does. *)
Definition sumOf (l : list number) : number := fold_left add l zero.

Section RowLoopSpec.
Variable now : nat -> Z.
Variable normH : list jsstring.

(** What a data row says, read with the resolved header. *)
Definition rowRaw (line : jsstring) : jsstring :=
  rawCNICOf normH (parseCSVLine line).
Definition rowNorm (line : jsstring) : jsstring :=
  normalizeCNIC (rowRaw line).
Definition rowItem (line : jsstring) : jsstring :=
  itemCodeOf normH (parseCSVLine line).
Definition rowPaid (line : jsstring) : number :=
  paidValOf normH (parseCSVLine line).
Definition rowOs (line : jsstring) : number :=
  osValOf normH (parseCSVLine line).

(** A row is skipped when either natural key is empty. *)
Definition rowKept (line : jsstring) : bool :=
  negb (isEmpty (rowNorm line) || isEmpty (rowItem line)).

(** The two maps and the file after a row that is not skipped. *)
Definition userMapAfter (m : maps) (line : jsstring) : map_t User.t :=
  if has (userMap m) (rowNorm line) then userMap m
  else set (userMap m) (rowNorm line)
         (newUser normH (parseCSVLine line) (rowRaw line) (rowNorm line)).

Definition fileMapAfter (m : maps) (line : jsstring) (owner : User.t)
  : map_t PropertyFile.t :=
  if has (fileMap m) (rowItem line) then fileMap m
  else set (fileMap m) (rowItem line)
         (newFile normH (parseCSVLine line) (rowRaw line) (rowItem line)
            owner).

Definition propAfter (idx : nat) (line : jsstring) (prop : PropertyFile.t)
  : PropertyFile.t :=
  PropertyFile.pushTransaction
    (newTransaction now normH (parseCSVLine line) idx (rowItem line)
       (PropertyFile.plotValue prop) (rowPaid line) (rowOs line))
    (PropertyFile.addBalance (rowOs line)
       (PropertyFile.addPaymentReceived (rowPaid line) prop)).

(** The rows that bear file code [k] and are not skipped, in row order. *)
Definition rowsOf (k : jsstring) (rows : list row) : list row :=
  filter (fun r => rowKept (snd r) && str_eqb (rowItem (snd r)) k) rows.

(** Every row bearing file code [k], skipped or not: the rows the claim
    about the totals speaks of. *)
Definition rowsBearing (k : jsstring) (rows : list row) : list row :=
  filter (fun r => str_eqb (rowItem (snd r)) k) rows.

Definition rowTransaction (plotValue : number) (r : row) : Transaction.t :=
  newTransaction now normH (parseCSVLine (snd r)) (fst r) (rowItem (snd r))
    plotValue (rowPaid (snd r)) (rowOs (snd r)).

(** Some row that is not skipped has [k] as its [key]. *)
Definition keptWith (key : jsstring -> jsstring) (rows : list row)
    (k : jsstring) : Prop :=
  exists r, In r rows /\ rowKept (snd r) = true /\ key (snd r) = k.

(** The invariant of the row loop; [rows] are the rows handled so far. *)
Record fileInv (rows : list row) (um : map_t User.t) (k : jsstring)
    (f : PropertyFile.t) : Prop := {
  fi_fileNo : PropertyFile.fileNo f = k;
  fi_paid : PropertyFile.paymentReceived f
            = sumOf (map (fun r => rowPaid (snd r)) (rowsOf k rows));
  fi_os : PropertyFile.balance f
          = sumOf (map (fun r => rowOs (snd r)) (rowsOf k rows));
  fi_txs : PropertyFile.transactions f
           = map (rowTransaction (PropertyFile.plotValue f)) (rowsOf k rows);
  fi_raw : exists r, In r rows /\ rowKept (snd r) = true
                     /\ rowItem (snd r) = k
                     /\ PropertyFile.ownerCNIC f = rowRaw (snd r);
  fi_owner : exists u,
      get um (normalizeCNIC (PropertyFile.ownerCNIC f)) = Some u
      /\ PropertyFile.ownerName f = User.name u
}.

Record Inv (rows : list row) (m : maps) : Prop := {
  inv_ukeys : forall k, In k (keys (userMap m)) <-> keptWith rowNorm rows k;
  inv_unodup : NoDup (keys (userMap m));
  inv_user : forall k u, get (userMap m) k = Some u ->
                         normalizeCNIC (User.cnic u) = k;
  inv_fkeys : forall k, In k (keys (fileMap m)) <-> keptWith rowItem rows k;
  inv_fnodup : NoDup (keys (fileMap m));
  inv_file : forall k f, get (fileMap m) k = Some f ->
                         fileInv rows (userMap m) k f
}.

End RowLoopSpec.

(** The resolved header and the data rows of a text. *)
Definition headerOf (text : jsstring) : list jsstring :=
  normHeaders (hd [] (nonEmptyLines text)).

Definition dataRows (text : jsstring) : list row :=
  indexedFrom 0 (tl (nonEmptyLines text)).

Definition emptyMaps : maps := {| userMap := []; fileMap := [] |}.

(** ** The merge by natural key *)

Section OverlaySpec.
Variable V : Type.
Variable key : V -> jsstring.

(** [l.forEach(v => m.set(key(v), v))] *)
Definition putAll (l : list V) (m : map_t V) : map_t V :=
  fold_left (fun m v => set m (key v) v) l m.

(** The entity a collection holds for key [k]: the last one with that key,
    the one that stays in a [Map] built from the collection. *)
Definition entityOf (k : jsstring) (l : list V) : option V :=
  find (fun v => str_eqb (key v) k) (rev l).

(** The entity of a merged collection under key [k]. *)
Definition entityAt (k : jsstring) (l : list V) : option V :=
  find (fun v => str_eqb (key v) k) l.

Definition consistent (m : map_t V) : Prop :=
  Forall (fun kv => key (snd kv) = fst kv) m.

(** [R] is the union of [A] and [B] keyed by [key], [B] winning. *)
Definition keyedUnion (A B R : list V) : Prop :=
  NoDup (map key R)
  /\ (forall k, In k (map key R) <-> In k (map key A) \/ In k (map key B))
  /\ (forall k, entityAt k R
                = match entityOf k B with
                  | Some b => Some b
                  | None => entityOf k A
                  end)
  /\ length R = length (nodup jsstring_eq_dec (map key A ++ map key B)).

End OverlaySpec.

(** ** Events *)

Definition storeEvent (e : event) : Prop :=
  match e with
  | IdbOpen | StorePut _ _ | ConsoleError _ _ => True
  | _ => False
  end.

Definition isUpsert (e : event) : Prop :=
  match e with Upsert _ _ => True | _ => False end.

(** Events that leave the in-memory collections alone. *)
Definition inertEvent (e : event) : Prop :=
  match e with SetUsers _ | SetAllFiles _ => False | _ => True end.

(** ** Identity keys *)

(** The identity key as the specification words it: uppercase first, then
    strip what is neither a digit nor the check letter. *)
Definition identityKeyAsSpecified (raw : jsstring) : jsstring :=
  filter isCnicChar (toUpperCase raw).

(** ** Numeric fields *)

(** The field with its commas, then its parentheses, deleted. *)
Definition stripSeparators (v : jsstring) : jsstring :=
  filter (fun c => negb ((c =? 40)%N || (c =? 41)%N))
    (filter (fun c => negb (c =? 44)%N) v).

(** ** Concrete inputs *)

Definition quote : jsstring := [34%N].
Definition newline : jsstring := [LF].
Definition clock0 (_ : nat) : Z := 1700000000000%Z.

(** The scenario of the specification: two rows for file [F1]. *)
Definition scenarioCSV : jsstring :=
  js "ocnic,oname,itemcode,reconsum,balduedeb" ++ newline ++
  js "35202-1234567-1,Ali,F1,500," ++ quote ++ js "1,500.00" ++ quote
  ++ newline ++
  js "35202-1234567-1,Ali,F1,300,(200)".

(** The scenario with its two data rows exchanged. *)
Definition scenarioSwappedCSV : jsstring :=
  js "ocnic,oname,itemcode,reconsum,balduedeb" ++ newline ++
  js "35202-1234567-1,Ali,F1,300,(200)" ++ newline ++
  js "35202-1234567-1,Ali,F1,500," ++ quote ++ js "1,500.00" ++ quote.

(** A second row that bears the file code but no identity number. *)
Definition skippedRowCSV : jsstring :=
  js "cnic,itemcode,paid,balance" ++ newline ++
  js "3520212345671,F1,500,0" ++ newline ++
  js ",F1,300,0".

(** An identity number written with separators, as exports have it. *)
Definition dashedCnicCSV : jsstring :=
  js "cnic,name,itemcode" ++ newline ++
  js "35202-1234567-1,Ali,F1".

(** Two rows of one file code under two identities. *)
Definition sharedFileCSV : jsstring :=
  js "cnic,name,itemcode" ++ newline ++
  js "35202-1234567-1,Ann,F1" ++ newline ++
  js "35202-7654321-2,Bob,F1".

(** A text with a header line and nothing else. *)
Definition headerOnlyCSV : jsstring :=
  js "ocnic,oname,itemcode,reconsum,balduedeb" ++ newline ++ newline.

(** A store that works; with it, a mirror that is enabled. *)
Definition workingStore : idb :=
  mkIdb (Fulfilled tt) (fun _ => TxComplete) (fun _ => ReqSuccess None) None.

Definition emptyState : state := {| st_users := []; st_allFiles := [] |}.
Definition emptyBatch : batch := {| users := []; files := [] |}.

(** ** Writing a CSV text *)

Definition comma : jsstring := [44%N].

(** [parts.join(sep)] *)
Fixpoint joinWith (sep : jsstring) (parts : list jsstring) : jsstring :=
  match parts with
  | [] => []
  | p :: rest =>
      match rest with
      | [] => p
      | _ :: _ => p ++ sep ++ joinWith sep rest
      end
  end.

(** A field between double quotes. *)
Definition quoted (f : jsstring) : jsstring := quote ++ f ++ quote.

(** A line made of its fields, each quoted. *)
Definition quotedLine (fields : list jsstring) : jsstring :=
  joinWith comma (map quoted fields).

(** What a field may hold to be read back as it is: no double quote, no
    line break, no byte-order mark, no white space at either end. *)
Definition plainField (f : jsstring) : Prop :=
  ~ In 34%N f /\ ~ In LF f /\ ~ In CR f /\ ~ In BOM f /\ trim f = f.

(** ** First occurrences *)

(** [acc] with [k] appended unless it is there: what [Map.set] does to the
    order of the keys. *)
Definition addKey (acc : list jsstring) (k : jsstring) : list jsstring :=
  if existsb (str_eqb k) acc then acc else acc ++ [k].

(** The distinct elements of [l] in the order of their first occurrence. *)
Definition firstOccurrences (l : list jsstring) : list jsstring :=
  fold_left addKey l [].

(** A table written as text: every field quoted, fields joined by commas,
    lines joined by [sep]. *)
Definition csvText (sep : jsstring) (rows : list (list jsstring)) : jsstring :=
  joinWith sep (map quotedLine rows).

(** ** What the batch is made of *)

Section BatchSpec.
Variable now : nat -> Z.
Variable normH : list jsstring.

(** The first row, among those not skipped, whose [key] is [k]. *)
Definition firstKept (key : jsstring -> jsstring) (k : jsstring)
    (rows : list row) : option row :=
  find (fun r => rowKept normH (snd r) && str_eqb (key (snd r)) k) rows.

(** The keys of the rows that are not skipped, in row order. *)
Definition keptKeys (key : jsstring -> jsstring) (rows : list row)
  : list jsstring :=
  map (fun r => key (snd r)) (filter (fun r => rowKept normH (snd r)) rows).

(** The Owner a row gives when it is the first of its identity. *)
Definition ownerOfRow (line : jsstring) : User.t :=
  newUser normH (parseCSVLine line) (rowRaw normH line) (rowNorm normH line).

(** The file with code [k]: seeded from row [first] with [owner] as the
    owner record, then updated by every row of [rowsOf k rows] in order. *)
Definition fileOfRows (k : jsstring) (rows : list row) (owner : User.t)
    (first : row) : PropertyFile.t :=
  fold_left (fun p r => propAfter now normH (fst r) (snd r) p)
    (rowsOf normH k rows)
    (newFile normH (parseCSVLine (snd first)) (rowRaw normH (snd first)) k
       owner).

Definition ownersInv (rows : list row) (m : maps) : Prop :=
  keys (userMap m) = firstOccurrences (keptKeys (rowNorm normH) rows)
  /\ forall k u, get (userMap m) k = Some u ->
       exists r, firstKept (rowNorm normH) k rows = Some r
                 /\ u = ownerOfRow (snd r).

Definition filesInv (rows : list row) (m : maps) : Prop :=
  keys (fileMap m) = firstOccurrences (keptKeys (rowItem normH) rows)
  /\ forall k f, get (fileMap m) k = Some f ->
       exists r r0,
         firstKept (rowItem normH) k rows = Some r
         /\ firstKept (rowNorm normH) (rowNorm normH (snd r)) rows = Some r0
         /\ f = fileOfRows k rows (ownerOfRow (snd r0)) r.

End BatchSpec.

(** Every field of a file but the two running totals and the
    transactions: what the row loop never assigns after the file is
    created. *)
Definition description (f : PropertyFile.t) :=
  (PropertyFile.fileNo f, PropertyFile.currencyNo f, PropertyFile.plotSize f,
   PropertyFile.plotValue f, PropertyFile.receivable f,
   PropertyFile.totalReceivable f, PropertyFile.surcharge f,
   PropertyFile.overdue f, PropertyFile.ownerName f,
   PropertyFile.ownerCNIC f, PropertyFile.fatherName f,
   PropertyFile.cellNo f, PropertyFile.regDate f, PropertyFile.address f,
   PropertyFile.plotNo f, PropertyFile.block f, PropertyFile.park f,
   PropertyFile.corner f, PropertyFile.mainBoulevard f).

(** The alias lists of the two natural keys. *)
Definition cnicAliases : list jsstring := [js "ocnic"; js "cnic"; js "u_ocnic"].
Definition itemCodeAliases : list jsstring :=
  [js "itemcode"; js "item_code"; js "u_itemcode"].

(** A text whose header names neither natural key. *)
Definition unknownHeaderCSV : jsstring :=
  js "identity,file,paid" ++ newline ++
  js "35202-1234567-1,F1,500".

(** Two owners with different identity numbers. *)
Definition ownerOne : User.t :=
  User.mk (js "user-1") (js "1") (js "One") (js "1@dinproperties.com.pk")
    (js "-") (js "CLIENT") (js "Active") (js "password123").
Definition ownerTwo : User.t :=
  User.mk (js "user-2") (js "2") (js "Two") (js "2@dinproperties.com.pk")
    (js "-") (js "CLIENT") (js "Active") (js "password123").

(** A store whose transactions fail with [e]. *)
Definition failingStore (e : error) : idb :=
  mkIdb (Fulfilled tt) (fun _ => TxError e) (fun _ => ReqError e) None.

(** A session marker that [JSON.parse] reads: none, or one with this
    [id]. *)
Definition readableMarker (o : option (option jsstring))
  : Lifecycle.sessionMarker :=
  match o with
  | None => Lifecycle.NoMarker
  | Some id => Lifecycle.Marker id
  end.

(** Four reads that are all fulfilled. *)
Definition fulfilledReads {Notice Message : Type}
    (lu : option (list User.t)) (lf : option (list PropertyFile.t))
    (ln : option (list Notice)) (lm : option (list Message))
  : Lifecycle.reads Notice Message :=
  Lifecycle.mkReads (Fulfilled lu) (Fulfilled lf) (Fulfilled ln) (Fulfilled lm).

(** Seed data with one owner, for notices and messages of type [unit]. *)
Definition demoSeeds : Lifecycle.seeds unit unit :=
  Lifecycle.mkSeeds [ownerOne] [] [] [].

(* ================================================================== *)
(** * Facts about the built-ins *)
(* ================================================================== *)

(** The built-ins on a few inputs, as a JavaScript engine answers. *)
Example parseFloat_examples :
  parseFloat (js "1500.00") = 1500%float
  /\ parseFloat (js "  -12.5e-1xyz") = (-1.25)%float
  /\ parseFloat (js "0.1") = (1 / 10)%float
  /\ parseFloat (js "0.30000000000000004") = (1 / 10 + 2 / 10)%float
  /\ parseFloat (js "9007199254740993") = 9007199254740992%float
  /\ parseFloat (js "1.7976931348623157e308") = 0x1.fffffffffffffp+1023%float
  /\ parseFloat (js "1e400") = infinity
  /\ parseFloat (js "4.9e-324") = 0x1p-1074%float
  /\ parseFloat (js "2e-324") = 0%float
  /\ parseFloat (js "5.e3") = 5000%float
  /\ parseFloat (js ".5") = (1 / 2)%float
  /\ parseFloat (js "-Infinity") = neg_infinity
  /\ parseFloat (js ".") = nan
  /\ parseFloat (js "") = nan
  /\ parseFloat (js "NULL") = nan.
Proof. repeat split; reflexivity. Qed.

Example parseCSVLine_examples :
  parseCSVLine (js "a, b ,c") = [js "a"; js "b"; js "c"]
  /\ parseCSVLine (js "x," ++ [34%N] ++ js "1,500.00" ++ [34%N] ++ js ",y")
     = [js "x"; js "1,500.00"; js "y"]
  /\ parseCSVLine (js "") = [js ""].
Proof. repeat split; reflexivity. Qed.

Example nonEmptyLines_examples :
  nonEmptyLines ([BOM] ++ js "h" ++ [CR; LF] ++ js "  " ++ [LF] ++ js "r1"
                 ++ [LF])
  = [js "h"; js "r1"]
  /\ nonEmptyLines (js "") = [].
Proof. repeat split; reflexivity. Qed.

Lemma str_eqb_eq (a b : jsstring) : str_eqb a b = true <-> a = b.
Proof.
  revert b; induction a as [|x a IH]; intros [|y b]; simpl;
    try (split; [discriminate | congruence]); try tauto.
  rewrite andb_true_iff, N.eqb_eq, IH.
  split; [intros [-> ->]; reflexivity | intros H; injection H; auto].
Qed.

Lemma str_eqb_refl (a : jsstring) : str_eqb a a = true.
Proof. apply str_eqb_eq; reflexivity. Qed.

Lemma str_eqb_neq (a b : jsstring) : str_eqb a b = false <-> a <> b.
Proof.
  rewrite <- str_eqb_eq. destruct (str_eqb a b); split; congruence.
Qed.

Lemma isEmpty_nil (s : jsstring) : isEmpty s = true <-> s = [].
Proof. destruct s; simpl; split; congruence. Qed.

Section MapFacts.
Variable V : Type.
Implicit Types (m : map_t V) (k : jsstring) (v : V).

Lemma get_set_same m k v : get (set m k v) k = Some v.
Proof.
  induction m as [|[k' v'] m IH]; simpl.
  - now rewrite str_eqb_refl.
  - destruct (str_eqb k' k) eqn:E; simpl; rewrite E; auto.
Qed.

Lemma get_set_other m k k' v : k <> k' -> get (set m k v) k' = get m k'.
Proof.
  intros Hne. induction m as [|[k0 v0] m IH]; simpl.
  - apply str_eqb_neq in Hne. now rewrite Hne.
  - destruct (str_eqb k0 k) eqn:E; simpl.
    + apply str_eqb_eq in E; subst k0.
      apply str_eqb_neq in Hne. now rewrite Hne.
    + now rewrite IH.
Qed.

Lemma has_true_iff m k : has m k = true <-> In k (keys m).
Proof.
  unfold has, keys. induction m as [|[k' v'] m IH]; simpl.
  - split; [discriminate | tauto].
  - destruct (str_eqb k' k) eqn:E.
    + apply str_eqb_eq in E. tauto.
    + apply str_eqb_neq in E. rewrite IH. tauto.
Qed.

Lemma has_false_iff m k : has m k = false <-> ~ In k (keys m).
Proof.
  rewrite <- has_true_iff. destruct (has m k); split; congruence.
Qed.

Lemma has_get m k : has m k = true <-> exists v, get m k = Some v.
Proof.
  unfold has. destruct (get m k); split; eauto; try discriminate.
  intros [v H]; discriminate.
Qed.

Lemma keys_set_present m k v : has m k = true -> keys (set m k v) = keys m.
Proof.
  unfold has, keys. induction m as [|[k' v'] m IH]; simpl.
  - discriminate.
  - destruct (str_eqb k' k) eqn:E; simpl; auto.
    intros H. now rewrite IH.
Qed.

Lemma keys_set_absent m k v :
  has m k = false -> keys (set m k v) = keys m ++ [k].
Proof.
  unfold has, keys. induction m as [|[k' v'] m IH]; simpl; auto.
  destruct (str_eqb k' k) eqn:E; simpl; [discriminate|].
  intros H. now rewrite IH.
Qed.

Lemma In_keys_set m k v k' :
  In k' (keys (set m k v)) <-> k' = k \/ In k' (keys m).
Proof.
  destruct (has m k) eqn:E.
  - rewrite keys_set_present by assumption.
    apply has_true_iff in E. split; [tauto | intros [->|]; auto].
  - rewrite keys_set_absent by assumption.
    rewrite in_app_iff; simpl. intuition congruence.
Qed.

Lemma NoDup_keys_set m k v : NoDup (keys m) -> NoDup (keys (set m k v)).
Proof.
  intros Hnd. destruct (has m k) eqn:E.
  - now rewrite keys_set_present.
  - rewrite keys_set_absent by assumption.
    apply has_false_iff in E.
    apply NoDup_app; [|constructor; [simpl; tauto|constructor]|]; auto.
    intros x Hx [<-|[]]. apply E. exact Hx.
Qed.

Lemma get_In m k v : get m k = Some v -> In (k, v) m.
Proof.
  induction m as [|[k' v'] m IH]; simpl; [discriminate|].
  destruct (str_eqb k' k) eqn:E.
  - apply str_eqb_eq in E. intros H; injection H as ->. subst. now left.
  - auto.
Qed.

Lemma In_get m k v : NoDup (keys m) -> In (k, v) m -> get m k = Some v.
Proof.
  unfold keys. induction m as [|[k' v'] m IH]; simpl; [tauto|].
  intros Hnd [H|H].
  - injection H as -> ->. now rewrite str_eqb_refl.
  - inversion Hnd as [|? ? Hni Hnd']; subst.
    destruct (str_eqb k' k) eqn:E; auto.
    apply str_eqb_eq in E; subst k'.
    exfalso. apply Hni. change k with (fst (k, v)). now apply in_map.
Qed.

Lemma In_values m v : In v (values m) <-> exists k, In (k, v) m.
Proof.
  unfold values. rewrite in_map_iff. split.
  - intros [[k v'] [<- H]]. now exists k.
  - intros [k H]. now exists (k, v).
Qed.

Lemma length_values m : length (values m) = length (keys m).
Proof. unfold values, keys. now rewrite !length_map. Qed.
End MapFacts.

(* ================================================================== *)
(** * The row loop *)
(* ================================================================== *)

Section RowLoopFacts.
Variable now : nat -> Z.
Variable normH : list jsstring.

Lemma processRow_skipped m idx line :
  rowKept normH line = false -> processRow now normH m idx line = Some m.
Proof.
  unfold rowKept, rowNorm, rowItem, rowRaw, processRow.
  intros H. apply negb_false_iff in H. cbv zeta. now rewrite H.
Qed.

Lemma get_userMapAfter_same m line :
  exists owner, get (userMapAfter normH m line) (rowNorm normH line) = Some owner.
Proof.
  unfold userMapAfter. destruct (has (userMap m) (rowNorm normH line)) eqn:E.
  - now apply has_get.
  - eexists. apply get_set_same.
Qed.

Lemma get_userMapAfter_mono m line k u :
  get (userMap m) k = Some u -> get (userMapAfter normH m line) k = Some u.
Proof.
  unfold userMapAfter. intros H.
  destruct (has (userMap m) (rowNorm normH line)) eqn:E; auto.
  rewrite get_set_other; auto. intros <-.
  unfold has in E. now rewrite H in E.
Qed.

Lemma get_fileMapAfter_same m line owner :
  exists prop, get (fileMapAfter normH m line owner) (rowItem normH line) = Some prop.
Proof.
  unfold fileMapAfter. destruct (has (fileMap m) (rowItem normH line)) eqn:E.
  - now apply has_get.
  - eexists. apply get_set_same.
Qed.

(** A row with both keys never throws: the two [Map.get] under [!] find
    the entry that was just ensured. *)
Lemma processRow_kept m idx line :
  rowKept normH line = true ->
  exists owner prop,
    get (userMapAfter normH m line) (rowNorm normH line) = Some owner
    /\ get (fileMapAfter normH m line owner) (rowItem normH line) = Some prop
    /\ processRow now normH m idx line =
         Some {| userMap := userMapAfter normH m line;
                 fileMap := set (fileMapAfter normH m line owner) (rowItem normH line)
                                (propAfter now normH idx line prop) |}.
Proof.
  intros K. apply negb_true_iff in K.
  destruct (get_userMapAfter_same m line) as [owner Ho].
  destruct (get_fileMapAfter_same m line owner) as [prop Hp].
  exists owner, prop. split; [exact Ho|]. split; [exact Hp|].
  unfold processRow. cbv zeta.
  fold (rowRaw normH line). fold (rowNorm normH line). fold (rowItem normH line).
  rewrite K. fold (userMapAfter normH m line). rewrite Ho.
  assert (Hf : (if has (fileMap m) (rowItem normH line) then Some (fileMap m)
                else Some (set (fileMap m) (rowItem normH line)
                             (newFile normH (parseCSVLine line) (rowRaw normH line)
                                (rowItem normH line) owner)))
               = Some (fileMapAfter normH m line owner)).
  { unfold fileMapAfter. now destruct (has (fileMap m) (rowItem normH line)). }
  rewrite Hf, Hp. reflexivity.
Qed.

Lemma processRow_total m idx line :
  exists m', processRow now normH m idx line = Some m'.
Proof.
  destruct (rowKept normH line) eqn:K.
  - destruct (processRow_kept m idx line K) as (o & p & _ & _ & H). eauto.
  - eexists. now apply processRow_skipped.
Qed.

Lemma Inv_empty : Inv now normH [] {| userMap := []; fileMap := [] |}.
Proof.
  split; simpl; try constructor; try discriminate;
    try (intros [r [[] _]]); try tauto.
Qed.

Lemma keptWith_snoc key rows r k :
  keptWith normH key (rows ++ [r]) k
  <-> keptWith normH key rows k \/ (rowKept normH (snd r) = true /\ key (snd r) = k).
Proof.
  unfold keptWith. split.
  - intros [x [Hin H]]. apply in_app_iff in Hin. destruct Hin as [Hin|[<-|[]]].
    + left. eauto.
    + right. exact H.
  - intros [[x [Hin H]]|H].
    + exists x. split; [apply in_app_iff; now left | exact H].
    + exists r. split; [apply in_app_iff; right; now left | exact H].
Qed.

Lemma rowsOf_snoc k rows r :
  rowsOf normH k (rows ++ [r])
  = rowsOf normH k rows
    ++ (if rowKept normH (snd r) && str_eqb (rowItem normH (snd r)) k then [r] else []).
Proof. unfold rowsOf. now rewrite filter_app. Qed.

Lemma rowsOf_nil_of_absent k rows :
  ~ keptWith normH (rowItem normH) rows k -> rowsOf normH k rows = [].
Proof.
  intros H.
  destruct (rowsOf normH k rows) as [|x l] eqn:E; [reflexivity|].
  exfalso. apply H.
  assert (Hx : In x (x :: l)) by now left.
  rewrite <- E in Hx. unfold rowsOf in Hx.
  apply filter_In in Hx. destruct Hx as [Hin Hb].
  apply andb_true_iff in Hb. destruct Hb as [Hk He].
  apply str_eqb_eq in He. exists x. auto.
Qed.

Lemma sumOf_snoc (l : list number) (x : number) :
  sumOf (l ++ [x]) = (sumOf l + x)%float.
Proof. unfold sumOf. now rewrite fold_left_app. Qed.

Lemma fileInv_skip rows um um' k f r :
  (forall k' u, get um k' = Some u -> get um' k' = Some u) ->
  rowKept normH (snd r) && str_eqb (rowItem normH (snd r)) k = false ->
  fileInv now normH rows um k f -> fileInv now normH (rows ++ [r]) um' k f.
Proof.
  intros Hmono Hb [H1 H2 H3 H4 H5 H6].
  split; rewrite ?rowsOf_snoc, ?Hb, ?app_nil_r; auto.
  - destruct H5 as [x [Hin Hx]]. exists x. split; [|exact Hx].
    apply in_app_iff. now left.
  - destruct H6 as [u [Hu Hn]]. exists u. split; auto.
Qed.

Lemma fileInv_step rows um um' idx line f :
  (forall k' u, get um k' = Some u -> get um' k' = Some u) ->
  rowKept normH line = true ->
  fileInv now normH rows um (rowItem normH line) f ->
  fileInv now normH (rows ++ [(idx, line)]) um' (rowItem normH line) (propAfter now normH idx line f).
Proof.
  intros Hmono K [H1 H2 H3 H4 H5 H6].
  assert (Hb : rowKept normH (snd (idx, line))
               && str_eqb (rowItem normH (snd (idx, line))) (rowItem normH line) = true).
  { simpl. now rewrite K, str_eqb_refl. }
  split; rewrite ?rowsOf_snoc, ?Hb, ?map_app; simpl; rewrite ?sumOf_snoc.
  - exact H1.
  - now rewrite H2.
  - now rewrite H3.
  - now rewrite H4.
  - destruct H5 as [x [Hin Hx]]. exists x. split; [|exact Hx].
    apply in_app_iff. now left.
  - destruct H6 as [u [Hu Hn]]. exists u. split; auto.
Qed.

Lemma fileInv_new rows um idx line owner :
  rowKept normH line = true ->
  ~ keptWith normH (rowItem normH) rows (rowItem normH line) ->
  get um (rowNorm normH line) = Some owner ->
  fileInv now normH (rows ++ [(idx, line)]) um (rowItem normH line)
    (propAfter now normH idx line
       (newFile normH (parseCSVLine line) (rowRaw normH line) (rowItem normH line)
          owner)).
Proof.
  intros K Habs Ho.
  assert (Hb : rowKept normH (snd (idx, line))
               && str_eqb (rowItem normH (snd (idx, line))) (rowItem normH line) = true).
  { simpl. now rewrite K, str_eqb_refl. }
  split; rewrite ?rowsOf_snoc, ?Hb, ?(rowsOf_nil_of_absent Habs); simpl;
    try reflexivity.
  - exists (idx, line). split; [apply in_app_iff; right; now left|]. auto.
  - exists owner. split; [exact Ho | reflexivity].
Qed.

Lemma Inv_step rows m idx line :
  Inv now normH rows m ->
  exists m', processRow now normH m idx line = Some m'
             /\ Inv now normH (rows ++ [(idx, line)]) m'.
Proof.
  intros [U1 U2 U3 F1 F2 F3].
  destruct (rowKept normH line) eqn:K.
  2:{ exists m. split; [now apply processRow_skipped|].
      assert (Hk : forall key k,
                 keptWith normH key (rows ++ [(idx, line)]) k <-> keptWith normH key rows k).
      { intros key k. rewrite keptWith_snoc. simpl. rewrite K.
        intuition discriminate. }
      split; auto.
      - intros k. now rewrite Hk.
      - intros k. now rewrite Hk.
      - intros k f Hf. apply fileInv_skip with (um := userMap m); auto.
        simpl. now rewrite K. }
  destruct (processRow_kept m idx line K) as (owner & prop & Ho & Hp & ->).
  eexists. split; [reflexivity|].
  assert (Hmono := get_userMapAfter_mono m line).
  split; simpl.
  - (* user keys *)
    intros k. rewrite keptWith_snoc. simpl. rewrite <- U1.
    unfold userMapAfter. destruct (has (userMap m) (rowNorm normH line)) eqn:E.
    + apply has_true_iff in E. intuition (subst; auto).
    + rewrite In_keys_set. intuition (subst; auto).
  - unfold userMapAfter. destruct (has (userMap m) (rowNorm normH line)); auto.
    now apply NoDup_keys_set.
  - intros k u. unfold userMapAfter.
    destruct (has (userMap m) (rowNorm normH line)) eqn:E; [apply U3|].
    destruct (jsstring_eq_dec (rowNorm normH line) k) as [<-|Hne].
    + rewrite get_set_same. intros H; injection H as <-. reflexivity.
    + rewrite get_set_other by assumption. apply U3.
  - (* file keys *)
    intros k. rewrite keptWith_snoc. simpl. rewrite <- F1.
    rewrite In_keys_set. unfold fileMapAfter.
    destruct (has (fileMap m) (rowItem normH line)) eqn:E.
    + apply has_true_iff in E. intuition (subst; auto).
    + rewrite In_keys_set. intuition (subst; auto).
  - apply NoDup_keys_set. unfold fileMapAfter.
    destruct (has (fileMap m) (rowItem normH line)); auto.
    now apply NoDup_keys_set.
  - intros k f.
    destruct (jsstring_eq_dec (rowItem normH line) k) as [<-|Hne].
    + rewrite get_set_same. intros H; injection H as <-.
      unfold fileMapAfter in Hp.
      destruct (has (fileMap m) (rowItem normH line)) eqn:E.
      * apply fileInv_step with (um := userMap m); auto.
      * rewrite get_set_same in Hp. injection Hp as <-.
        apply fileInv_new; auto.
        rewrite <- F1. now apply has_false_iff.
    + rewrite get_set_other by assumption. intros Hf.
      assert (Hf' : get (fileMap m) k = Some f).
      { unfold fileMapAfter in Hf.
        destruct (has (fileMap m) (rowItem normH line)); auto.
        now rewrite get_set_other in Hf. }
      apply fileInv_skip with (um := userMap m); auto.
      simpl. apply andb_false_iff. right. now apply str_eqb_neq.
Qed.

Lemma forEachRow_Inv lines : forall done m idx,
  Inv now normH done m ->
  exists m', forEachRow now normH m idx lines = Some m'
             /\ Inv now normH (done ++ indexedFrom idx lines) m'.
Proof.
  induction lines as [|l lines IH]; intros done m idx HI; simpl.
  - exists m. now rewrite app_nil_r.
  - destruct (Inv_step idx l HI) as (m1 & -> & HI1).
    destruct (IH _ _ (S idx) HI1) as (m' & Hm' & HI').
    exists m'. split; [exact Hm'|].
    now rewrite <- app_assoc in HI'.
Qed.

End RowLoopFacts.

(* ================================================================== *)
(** * Ingestion of a whole text *)
(* ================================================================== *)

Lemma ingest_Inv now text :
  2 <= length (nonEmptyLines text) ->
  exists m,
    Inv now (headerOf text) (dataRows text) m
    /\ ingest now text = Some {| users := values (userMap m);
                                 files := values (fileMap m) |}.
Proof.
  unfold ingest, headerOf, dataRows.
  destruct (nonEmptyLines text) as [|h [|r rows]]; simpl; try lia.
  intros _.
  destruct (forEachRow_Inv (r :: rows) 0 (Inv_empty now (normHeaders h)))
    as (m & Hm & HI).
  simpl in Hm, HI. exists m. split; [exact HI|].
  fold emptyMaps. unfold emptyMaps. now rewrite Hm.
Qed.

Lemma ingest_too_short now text :
  length (nonEmptyLines text) < 2 -> ingest now text = None.
Proof.
  unfold ingest. destruct (nonEmptyLines text) as [|h [|r rows]]; simpl;
    auto; lia.
Qed.

Lemma In_values_get (V : Type) (m : map_t V) (v : V) :
  NoDup (keys m) -> In v (values m) -> exists k, get m k = Some v.
Proof.
  intros Hnd Hin. apply In_values in Hin. destruct Hin as [k Hk].
  exists k. now apply In_get.
Qed.

Lemma get_In_values (V : Type) (m : map_t V) (k : jsstring) (v : V) :
  get m k = Some v -> In v (values m).
Proof. intros H. apply In_values. exists k. now apply get_In. Qed.

Lemma map_key_values (V : Type) (key : V -> jsstring) (m : map_t V) :
  NoDup (keys m) ->
  (forall k v, get m k = Some v -> key v = k) ->
  map key (values m) = keys m.
Proof.
  intros Hnd Hk. unfold values, keys. rewrite map_map.
  apply map_ext_in. intros [k v] Hin. simpl.
  apply Hk. now apply In_get.
Qed.

Lemma keptWith_lines normH (key : jsstring -> jsstring) lines k : forall i,
  keptWith normH key (indexedFrom i lines) k
  <-> exists l, In l lines /\ rowKept normH l = true /\ key l = k.
Proof.
  unfold keptWith. induction lines as [|l lines IH]; intros i; simpl.
  - split; intros [x [[] _]].
  - split.
    + intros [r [[<-|Hin] H]]; simpl in *.
      * exists l. auto.
      * destruct (proj1 (IH (S i))) as [l' [Hl' H']]; [now exists r|].
        exists l'. auto.
    + intros [l' [[<-|Hin] H]].
      * exists (i, l). auto.
      * destruct (proj2 (IH (S i))) as [r [Hr H']]; [now exists l'|].
        exists r. auto.
Qed.

(** A batch of at least two lines is ingested without an exception, and
    the loop invariant holds of its maps. *)
Lemma ingest_files now text :
  2 <= length (nonEmptyLines text) ->
  exists b, ingest now text = Some b
    /\ NoDup (map App.userKey (users b))
    /\ (forall k, In k (map App.userKey (users b))
                  <-> keptWith (headerOf text) (rowNorm (headerOf text))
                        (dataRows text) k)
    /\ NoDup (map PropertyFile.fileNo (files b))
    /\ (forall k, In k (map PropertyFile.fileNo (files b))
                  <-> keptWith (headerOf text) (rowItem (headerOf text))
                        (dataRows text) k)
    /\ (forall f, In f (files b) ->
          exists um, fileInv now (headerOf text) (dataRows text) um
                       (PropertyFile.fileNo f) f
                     /\ forall k u, get um k = Some u ->
                          In u (users b) /\ App.userKey u = k).
Proof.
  intros H. destruct (ingest_Inv now text H) as (m & [U1 U2 U3 F1 F2 F3] & E).
  eexists. split; [exact E|]. simpl.
  assert (Hf : forall k f, get (fileMap m) k = Some f -> PropertyFile.fileNo f = k).
  { intros k f Hk. now destruct (F3 k f Hk). }
  unfold App.userKey.
  rewrite (map_key_values (fun u => normalizeCNIC (User.cnic u)) (userMap m) U2 U3).
  rewrite (map_key_values PropertyFile.fileNo (fileMap m) F2 Hf).
  repeat split; auto; try apply U1; try apply F1.
  intros f Hin. destruct (In_values_get (fileMap m) f F2 Hin) as [k Hk].
  exists (userMap m). rewrite (Hf k f Hk). split; [now apply F3|].
  intros k' u Hu. split; [now apply get_In_values with k' | now apply U3].
Qed.

(* ================================================================== *)
(** * C1: per-file totals *)
(* ================================================================== *)

(** C1, as stated, fails: a row that bears file code [F1] but has an empty
    identity number is skipped by the guard of the row loop, so its paid
    amount is not in the file's [paymentReceived] (500 here, where the sum
    over all rows bearing [F1] is 800). *)
Lemma totals_leave_out_skipped_rows :
  exists b f,
    ingest clock0 skippedRowCSV = Some b
    /\ files b = [f]
    /\ PropertyFile.fileNo f = js "F1"
    /\ PropertyFile.paymentReceived f = 500%float
    /\ sumOf (map (fun r => rowPaid (headerOf skippedRowCSV) (snd r))
                (rowsBearing (headerOf skippedRowCSV) (js "F1")
                   (dataRows skippedRowCSV))) = 800%float
    /\ PropertyFile.paymentReceived f
       <> sumOf (map (fun r => rowPaid (headerOf skippedRowCSV) (snd r))
                   (rowsBearing (headerOf skippedRowCSV) (js "F1")
                      (dataRows skippedRowCSV))).
Proof.
  destruct (ingest clock0 skippedRowCSV) as [b|] eqn:E;
    vm_compute in E; [|discriminate].
  injection E as <-.
  eexists. eexists. split; [reflexivity|]. split; [reflexivity|].
  split; [reflexivity|]. split; [reflexivity|]. split; [reflexivity|].
  intros H. apply (f_equal (fun z => PrimFloat.eqb z 500%float)) in H.
  vm_compute in H. discriminate.
Qed.

(** C1 (amended): for every text of two or more non-empty lines the
    ingestion succeeds, and for every file of the batch [paymentReceived] is
    the sum, in row order from 0, of the parsed paid amounts of the rows
    that bear its file code and are not skipped (both natural keys
    non-empty); [balance] is the same sum of the parsed outstanding
    amounts; and the transactions are those rows' transactions in row
    order.  The scenario of the specification gives one file [F1] with
    [paymentReceived = 800], [balance = 1700] and two transactions with
    sequence indices 0 and 1. *)
Theorem file_totals_sum_kept_rows :
  (forall now text,
      2 <= length (nonEmptyLines text) ->
      exists b, ingest now text = Some b
        /\ forall f, In f (files b) ->
             let rows := rowsOf (headerOf text) (PropertyFile.fileNo f)
                           (dataRows text) in
             PropertyFile.paymentReceived f
             = sumOf (map (fun r => rowPaid (headerOf text) (snd r)) rows)
             /\ PropertyFile.balance f
                = sumOf (map (fun r => rowOs (headerOf text) (snd r)) rows)
             /\ PropertyFile.transactions f
                = map (rowTransaction now (headerOf text)
                         (PropertyFile.plotValue f)) rows)
  /\ (exists b f,
        ingest clock0 scenarioCSV = Some b
        /\ files b = [f]
        /\ PropertyFile.fileNo f = js "F1"
        /\ PropertyFile.paymentReceived f = 800%float
        /\ PropertyFile.balance f = 1700%float
        /\ map Transaction.seq (PropertyFile.transactions f) = [0; 1]
        /\ map Transaction.amount_paid (PropertyFile.transactions f)
           = [500%float; 300%float]
        /\ map Transaction.balduedeb (PropertyFile.transactions f)
           = [1500%float; 200%float]).
Proof.
  split.
  - intros now text H.
    destruct (ingest_files now text H) as (b & E & _ & _ & _ & _ & Hf).
    exists b. split; [exact E|]. intros f Hin.
    destruct (Hf f Hin) as (um & [_ H2 H3 H4 _ _] & _). auto.
  - destruct (ingest clock0 scenarioCSV) as [b|] eqn:E;
      vm_compute in E; [|discriminate].
    injection E as <-.
    eexists. eexists. repeat (split; [reflexivity|]). reflexivity.
Qed.

Lemma file_totals_sum_kept_rows_witness :
  2 <= length (nonEmptyLines skippedRowCSV)
  /\ exists b, ingest clock0 skippedRowCSV = Some b
       /\ forall f, In f (files b) ->
            let rows := rowsOf (headerOf skippedRowCSV) (PropertyFile.fileNo f)
                          (dataRows skippedRowCSV) in
            PropertyFile.paymentReceived f
            = sumOf (map (fun r => rowPaid (headerOf skippedRowCSV) (snd r)) rows)
            /\ PropertyFile.balance f
               = sumOf (map (fun r => rowOs (headerOf skippedRowCSV) (snd r)) rows)
            /\ PropertyFile.transactions f
               = map (rowTransaction clock0 (headerOf skippedRowCSV)
                        (PropertyFile.plotValue f)) rows.
Proof.
  assert (H : 2 <= length (nonEmptyLines skippedRowCSV)) by (vm_compute; lia).
  split; [exact H|].
  exact (proj1 file_totals_sum_kept_rows clock0 skippedRowCSV H).
Defined.

(* ================================================================== *)
(** * C7: one entity per natural key, skipped rows *)
(* ================================================================== *)

Lemma keptWith_Permutation normH key (rows rows' : list jsstring) k :
  Permutation rows rows' ->
  keptWith normH key (indexedFrom 0 rows) k ->
  keptWith normH key (indexedFrom 0 rows') k.
Proof.
  intros HP H. apply keptWith_lines in H. apply keptWith_lines.
  destruct H as [l [Hin Hl]]. exists l. split; [|exact Hl].
  now apply Permutation_in with rows.
Qed.

Lemma same_keys_Permutation (l l' : list jsstring) :
  NoDup l -> NoDup l' -> (forall k, In k l <-> In k l') -> Permutation l l'.
Proof. intros. now apply NoDup_Permutation. Qed.

(** C7: for every text of two or more non-empty lines the ingestion
    succeeds and the batch has exactly one Owner per distinct normalized
    identity number and exactly one PropertyFile per distinct file code
    found in the data rows that are not skipped; exchanging data rows
    changes neither set of keys (nor, then, the two counts); and a row whose
    normalized identity or file code is empty leaves both maps as they
    were. *)
Theorem one_entity_per_natural_key :
  (forall now text,
      2 <= length (nonEmptyLines text) ->
      exists b, ingest now text = Some b
        /\ NoDup (map App.userKey (users b))
        /\ (forall k, In k (map App.userKey (users b))
                      <-> exists r, In r (dataRows text)
                            /\ rowKept (headerOf text) (snd r) = true
                            /\ rowNorm (headerOf text) (snd r) = k)
        /\ NoDup (map PropertyFile.fileNo (files b))
        /\ (forall k, In k (map PropertyFile.fileNo (files b))
                      <-> exists r, In r (dataRows text)
                            /\ rowKept (headerOf text) (snd r) = true
                            /\ rowItem (headerOf text) (snd r) = k))
  /\ (forall now now' text text' header rows rows',
         nonEmptyLines text = header :: rows ->
         nonEmptyLines text' = header :: rows' ->
         rows <> [] ->
         Permutation rows rows' ->
         exists b b',
           ingest now text = Some b /\ ingest now' text' = Some b'
           /\ Permutation (map App.userKey (users b))
                          (map App.userKey (users b'))
           /\ Permutation (map PropertyFile.fileNo (files b))
                          (map PropertyFile.fileNo (files b'))
           /\ length (users b) = length (users b')
           /\ length (files b) = length (files b'))
  /\ (forall now normH m idx line,
         isEmpty (rowNorm normH line) || isEmpty (rowItem normH line) = true ->
         processRow now normH m idx line = Some m).
Proof.
  split; [|split].
  - intros now text H.
    destruct (ingest_files now text H) as (b & E & U2 & U1 & F2 & F1 & _).
    exists b. repeat split; auto; try apply U1; try apply F1.
  - intros now now' text text' header rows rows' E E' Hne HP.
    assert (Hlen : length rows = length rows') by now apply Permutation_length.
    assert (H : 2 <= length (nonEmptyLines text)).
    { rewrite E. destruct rows; [congruence | simpl; lia]. }
    assert (H' : 2 <= length (nonEmptyLines text')).
    { rewrite E'. simpl. rewrite <- Hlen. destruct rows; [congruence | simpl; lia]. }
    destruct (ingest_files now text H) as (b & Eb & U2 & U1 & F2 & F1 & _).
    destruct (ingest_files now' text' H') as (b' & Eb' & U2' & U1' & F2' & F1' & _).
    unfold headerOf, dataRows in U1, F1, U1', F1'.
    rewrite E in U1, F1. rewrite E' in U1', F1'. simpl in U1, F1, U1', F1'.
    assert (PU : Permutation (map App.userKey (users b))
                             (map App.userKey (users b'))).
    { apply same_keys_Permutation; auto. intros k.
      rewrite U1, U1'. split; apply keptWith_Permutation; auto.
      now apply Permutation_sym. }
    assert (PF : Permutation (map PropertyFile.fileNo (files b))
                             (map PropertyFile.fileNo (files b'))).
    { apply same_keys_Permutation; auto. intros k.
      rewrite F1, F1'. split; apply keptWith_Permutation; auto.
      now apply Permutation_sym. }
    exists b, b'. repeat split; auto.
    + apply Permutation_length in PU. now rewrite !length_map in PU.
    + apply Permutation_length in PF. now rewrite !length_map in PF.
  - intros now normH m idx line H. apply processRow_skipped.
    unfold rowKept. now rewrite H.
Qed.

Lemma one_entity_per_natural_key_witness :
  exists b b',
    ingest clock0 scenarioCSV = Some b
    /\ ingest clock0 scenarioSwappedCSV = Some b'
    /\ Permutation (map App.userKey (users b)) (map App.userKey (users b'))
    /\ Permutation (map PropertyFile.fileNo (files b))
                   (map PropertyFile.fileNo (files b'))
    /\ length (users b) = length (users b')
    /\ length (files b) = length (files b').
Proof.
  refine (proj1 (proj2 one_entity_per_natural_key) clock0 clock0
            scenarioCSV scenarioSwappedCSV
            (js "ocnic,oname,itemcode,reconsum,balduedeb")
            [js "35202-1234567-1,Ali,F1,500," ++ quote ++ js "1,500.00" ++ quote;
             js "35202-1234567-1,Ali,F1,300,(200)"]
            [js "35202-1234567-1,Ali,F1,300,(200)";
             js "35202-1234567-1,Ali,F1,500," ++ quote ++ js "1,500.00" ++ quote]
            _ _ _ _).
  - vm_compute. reflexivity.
  - vm_compute. reflexivity.
  - discriminate.
  - apply perm_swap.
Defined.

(* ================================================================== *)
(** * The merge engine: overlay by natural key *)
(* ================================================================== *)

Section Overlay.
Variable V : Type.
Variable key : V -> jsstring.

Lemma find_snoc (p : V -> bool) (l : list V) (x : V) :
  find p (l ++ [x])
  = match find p l with Some y => Some y | None => if p x then Some x else None end.
Proof.
  induction l as [|y l IH]; simpl; [reflexivity|].
  destruct (p y); auto.
Qed.

Lemma get_putAll (l : list V) : forall (m : map_t V) (k : jsstring),
  get (putAll key l m) k
  = match entityOf key k l with Some v => Some v | None => get m k end.
Proof.
  unfold putAll, entityOf.
  induction l as [|v l IH]; intros m k; simpl; [reflexivity|].
  rewrite IH, find_snoc.
  destruct (find _ (rev l)); [reflexivity|].
  destruct (str_eqb (key v) k) eqn:E.
  - apply str_eqb_eq in E. subst k. apply get_set_same.
  - apply str_eqb_neq in E. now apply get_set_other.
Qed.

Lemma In_keys_putAll (l : list V) : forall (m : map_t V) (k : jsstring),
  In k (keys (putAll key l m)) <-> In k (keys m) \/ In k (map key l).
Proof.
  unfold putAll. induction l as [|v l IH]; intros m k; simpl; [tauto|].
  rewrite IH, In_keys_set. intuition (subst; auto).
Qed.

Lemma NoDup_keys_putAll (l : list V) : forall m : map_t V,
  NoDup (keys m) -> NoDup (keys (putAll key l m)).
Proof.
  unfold putAll. induction l as [|v l IH]; intros m H; simpl; auto.
  apply IH. now apply NoDup_keys_set.
Qed.

Lemma consistent_set (m : map_t V) (v : V) :
  consistent key m -> consistent key (set m (key v) v).
Proof.
  unfold consistent. induction m as [|[k' v'] m IH]; simpl; intros H.
  - constructor; [reflexivity | constructor].
  - inversion H as [|? ? Hk Hm]; subst. simpl in Hk.
    destruct (str_eqb k' (key v)) eqn:E.
    + apply str_eqb_eq in E. constructor; [simpl; congruence | exact Hm].
    + constructor; [exact Hk | now apply IH].
Qed.

Lemma consistent_putAll (l : list V) : forall m : map_t V,
  consistent key m -> consistent key (putAll key l m).
Proof.
  unfold putAll. induction l as [|v l IH]; intros m H; simpl; auto.
  apply IH. now apply consistent_set.
Qed.

Lemma entityAt_values (m : map_t V) (k : jsstring) :
  consistent key m -> entityAt key k (values m) = get m k.
Proof.
  unfold consistent, entityAt, values.
  induction m as [|[k' v'] m IH]; simpl; intros H; [reflexivity|].
  inversion H as [|? ? Hk Hm]; subst. simpl in Hk. rewrite Hk.
  destruct (str_eqb k' k); auto.
Qed.

Lemma map_key_values_consistent (m : map_t V) :
  consistent key m -> map key (values m) = keys m.
Proof.
  unfold consistent, values, keys. rewrite map_map.
  induction 1 as [|[k v] m Hk _ IH]; simpl; [reflexivity|].
  simpl in Hk. now rewrite Hk, IH.
Qed.

Lemma entityOf_In (k : jsstring) (l : list V) (v : V) :
  entityOf key k l = Some v -> In v l /\ key v = k.
Proof.
  unfold entityOf. intros H. apply find_some in H. destruct H as [Hin Hk].
  apply in_rev in Hin. apply str_eqb_eq in Hk. auto.
Qed.

Lemma entityOf_None (k : jsstring) (l : list V) :
  entityOf key k l = None <-> ~ In k (map key l).
Proof.
  unfold entityOf. split.
  - intros H Hin. apply in_map_iff in Hin. destruct Hin as [v [Hk Hin]].
    apply in_rev in Hin. apply (find_none _ _ H) in Hin.
    subst k. now rewrite str_eqb_refl in Hin.
  - intros H. destruct (find _ (rev l)) as [v|] eqn:E; [|reflexivity].
    exfalso. apply H. apply find_some in E. destruct E as [Hin Hk].
    apply in_rev in Hin. apply str_eqb_eq in Hk. subst k. now apply in_map.
Qed.

Lemma entityOf_unique (l : list V) (v : V) :
  NoDup (map key l) -> In v l -> entityOf key (key v) l = Some v.
Proof.
  intros Hnd Hin.
  destruct (entityOf key (key v) l) as [w|] eqn:E.
  - apply entityOf_In in E. destruct E as [Hw Hk].
    f_equal. revert Hnd Hin Hw Hk. clear.
    induction l as [|x l IH]; simpl; [tauto|].
    intros Hnd. inversion Hnd as [|? ? Hni Hnd']; subst.
    intros [->|Hv] [->|Hw] Hk; auto.
    + exfalso. apply Hni. rewrite <- Hk. now apply in_map.
    + exfalso. apply Hni. rewrite Hk. now apply in_map.
  - exfalso. apply entityOf_None in E. apply E. now apply in_map.
Qed.

Lemma set_absent (m : map_t V) (k : jsstring) (v : V) :
  ~ In k (keys m) -> set m k v = m ++ [(k, v)].
Proof.
  unfold keys. induction m as [|[k' v'] m IH]; simpl; intros H; [reflexivity|].
  destruct (str_eqb k' k) eqn:E.
  - apply str_eqb_eq in E. tauto.
  - rewrite IH; tauto.
Qed.

Lemma values_putAll_fresh (l : list V) : forall m : map_t V,
  NoDup (keys m ++ map key l) -> values (putAll key l m) = values m ++ l.
Proof.
  unfold putAll. induction l as [|v l IH]; intros m H; simpl.
  - now rewrite app_nil_r.
  - assert (Hv : ~ In (key v) (keys m)).
    { intros Hin. apply NoDup_remove_2 in H. apply H.
      apply in_app_iff. now left. }
    rewrite (set_absent m (key v) v Hv), IH.
    + unfold values. rewrite map_app. simpl. now rewrite <- app_assoc.
    + unfold keys in *. rewrite map_app. simpl. rewrite <- app_assoc. exact H.
Qed.

(** What the overlay of [fresh] on [existing] is. *)
Lemma overlay_spec (existing fresh : list V) :
  NoDup (map key (App.overlay key existing fresh))
  /\ (forall k, In k (map key (App.overlay key existing fresh))
                <-> In k (map key existing) \/ In k (map key fresh))
  /\ (forall k, entityAt key k (App.overlay key existing fresh)
                = match entityOf key k fresh with
                  | Some b => Some b
                  | None => entityOf key k existing
                  end)
  /\ length (App.overlay key existing fresh)
     = length (nodup jsstring_eq_dec (map key existing ++ map key fresh)).
Proof.
  unfold App.overlay. fold (putAll key existing []).
  fold (putAll key fresh (putAll key existing [])).
  set (M := putAll key fresh (putAll key existing [])).
  assert (HC : consistent key M).
  { apply consistent_putAll, consistent_putAll. constructor. }
  assert (HN : NoDup (keys M)).
  { apply NoDup_keys_putAll, NoDup_keys_putAll. constructor. }
  assert (HK : forall k, In k (keys M)
                         <-> In k (map key existing) \/ In k (map key fresh)).
  { intros k. unfold M. rewrite !In_keys_putAll. simpl. tauto. }
  rewrite (map_key_values_consistent HC).
  split; [exact HN|]. split; [exact HK|]. split.
  - intros k. rewrite (entityAt_values k HC). unfold M.
    rewrite !get_putAll. simpl.
    destruct (entityOf key k fresh); [reflexivity|].
    now destruct (entityOf key k existing).
  - rewrite length_values. apply Permutation_length.
    apply NoDup_Permutation; [exact HN | apply NoDup_nodup |].
    intros k. rewrite nodup_In, in_app_iff. apply HK.
Qed.

End Overlay.

(* ================================================================== *)
(** * [handleMassImport]: its events and its effect on the collections *)
(* ================================================================== *)

Lemma setItem_events w key value :
  Forall storeEvent (fst (AsyncStorage.setItem w key value)).
Proof.
  unfold AsyncStorage.setItem, AsyncStorage.getDB, resolveWith, tryCatch,
    bind, newPromise, emit, ret.
  destruct (openDB w); simpl.
  - destruct (putTx w key); simpl; repeat constructor.
  - repeat constructor.
  - repeat constructor.
Qed.

(** The events of one call, in order: the three state updates, the two
    awaited writes to the local store, and, only when both writes have been
    fulfilled, the two mirror calls and the final update. *)
Lemma handleMassImport_trace w cloud st data flag :
  let nu := nextUsers st data flag in
  let nf := nextFiles st data flag in
  let pu := AsyncStorage.setItem w (js "users") (UsersData nu) in
  let pf := AsyncStorage.setItem w (js "files") (FilesData nf) in
  fst (handleMassImport w cloud st data flag)
  = [SetIsSyncing true; SetUsers nu; SetAllFiles nf] ++ fst pu
    ++ match snd pu with
       | Fulfilled _ =>
           fst pf
           ++ match snd pf with
              | Fulfilled _ =>
                  syncToCloud cloud (js "users") (UsersData nu)
                  ++ syncToCloud cloud (js "files") (FilesData nf)
                  ++ [SetIsSyncing false]
              | _ => []
              end
       | _ => []
       end.
Proof.
  intros nu nf pu pf. unfold handleMassImport.
  fold nu. fold nf. fold pu. fold pf.
  destruct pu as [tu [[]| |]]; destruct pf as [tf [[]| |]];
    unfold bind, emit, emitAll; simpl; rewrite ?app_nil_r; reflexivity.
Qed.

Lemma applyEvents_app st tr tr' :
  applyEvents st (tr ++ tr') = applyEvents (applyEvents st tr) tr'.
Proof. unfold applyEvents. apply fold_left_app. Qed.

Lemma applyEvents_inert st tr :
  Forall inertEvent tr ->
  applyEvents st tr = st.
Proof.
  unfold applyEvents. intros H. revert st.
  induction H as [|e tr He _ IH]; intros st; simpl; [reflexivity|].
  destruct e; simpl in *; try apply IH; contradiction.
Qed.

Lemma storeEvent_inert tr :
  Forall storeEvent tr ->
  Forall inertEvent tr.
Proof. apply Forall_impl. intros []; simpl; tauto. Qed.

Lemma syncToCloud_inert cloud table data :
  Forall inertEvent
    (syncToCloud cloud table data).
Proof. unfold syncToCloud. destruct cloud; simpl; repeat constructor. Qed.

(** After the call the in-memory collections are [nextUsers] and
    [nextFiles], whatever the store and the mirror do. *)
Lemma handleMassImport_state w cloud st data flag :
  applyEvents st (fst (handleMassImport w cloud st data flag))
  = {| st_users := nextUsers st data flag;
       st_allFiles := nextFiles st data flag |}.
Proof.
  rewrite handleMassImport_trace. cbv zeta.
  rewrite applyEvents_app. simpl. apply applyEvents_inert.
  apply Forall_app. split; [apply storeEvent_inert, setItem_events|].
  destruct (snd (AsyncStorage.setItem w (js "users") _)); try constructor.
  apply Forall_app. split; [apply storeEvent_inert, setItem_events|].
  destruct (snd (AsyncStorage.setItem w (js "files") _)); try constructor.
  apply Forall_app. split; [apply syncToCloud_inert|].
  apply Forall_app. split; [apply syncToCloud_inert|].
  repeat constructor.
Qed.

(* ================================================================== *)
(** * C2: incremental merge *)
(* ================================================================== *)

(** C2: without the destructive flag ([undefined] or [false]) the call
    sets the owners to the union of the existing owners and the batch's
    keyed by normalized identity number, and the files to the union keyed by
    file number: one entity per key of the key union, the batch's entity
    for a key of the batch, the existing entity for a key only the existing
    collection has, and as many entities as the key union has keys.  (Where
    a collection has several entities under one key, its entity for that
    key is the last one, as in a [Map] built from it; in a collection with
    one entity per key it is that entity.) *)
Theorem incremental_merge_is_keyed_union :
  (forall w cloud st data,
      applyEvents st (fst (handleMassImport w cloud st data None))
      = {| st_users := nextUsers st data None;
           st_allFiles := nextFiles st data None |}
      /\ nextUsers st data (Some false) = nextUsers st data None
      /\ nextFiles st data (Some false) = nextFiles st data None
      /\ keyedUnion userKey (st_users st) (users data) (nextUsers st data None)
      /\ keyedUnion fileKey (st_allFiles st) (files data)
           (nextFiles st data None))
  /\ (forall (V : Type) (key : V -> jsstring) (l : list V) (k : jsstring),
         match entityOf key k l with
         | Some v => In v l /\ key v = k
         | None => ~ In k (map key l)
         end)
  /\ (forall (V : Type) (key : V -> jsstring) (l : list V) (v : V),
         NoDup (map key l) -> In v l -> entityOf key (key v) l = Some v).
Proof.
  split; [|split].
  - intros w cloud st data.
    split; [apply handleMassImport_state|].
    split; [reflexivity|]. split; [reflexivity|].
    split; unfold nextUsers, nextFiles, keyedUnion; simpl; apply overlay_spec.
  - intros V key l k. destruct (entityOf key k l) eqn:E.
    + now apply entityOf_In.
    + now apply entityOf_None.
  - intros V key l v. apply entityOf_unique.
Qed.

(* ================================================================== *)
(** * C5: the identity key *)
(* ================================================================== *)

(** C5, as stated, fails: nothing is uppercased, so a lowercase check
    letter is stripped where uppercasing first would keep it. *)
Lemma no_uppercase_before_stripping :
  normalizeCNIC (js "35202-1234567-x") = js "352021234567"
  /\ identityKeyAsSpecified (js "35202-1234567-x") = js "352021234567X"
  /\ normalizeCNIC (js "35202-1234567-x")
     <> identityKeyAsSpecified (js "35202-1234567-x").
Proof.
  split; [reflexivity|]. split; [reflexivity|].
  vm_compute. discriminate.
Qed.

(** C5 (amended): the identity key is the raw string with every code unit
    that is not a digit or the uppercase letter [X] deleted and nothing
    else changed (no case conversion); ingestion keys its owners by it,
    the incremental merge keys owners by the same function of the stored
    [cnic] (so merging a batch into an empty registry gives the batch
    back), and the owner-to-file match compares the same function of
    [ownerCNIC] and of the user's [cnic]. *)
Theorem identity_key_strips_without_case_change :
  normalizeCNIC [] = []
  /\ (forall c, normalizeCNIC [c]
                = if isDigit c || (c =? 88)%N then [c] else [])
  /\ (forall a b, normalizeCNIC (a ++ b) = normalizeCNIC a ++ normalizeCNIC b)
  /\ (forall now text,
         2 <= length (nonEmptyLines text) ->
         exists b, ingest now text = Some b
           /\ NoDup (map (fun u => normalizeCNIC (User.cnic u)) (users b))
           /\ (forall k, In k (map (fun u => normalizeCNIC (User.cnic u)) (users b))
                 <-> exists r, In r (dataRows text)
                       /\ rowKept (headerOf text) (snd r) = true
                       /\ normalizeCNIC (rowRaw (headerOf text) (snd r)) = k)
           /\ forall st, st_users st = [] -> nextUsers st b None = users b)
  /\ (forall u, userKey u = normalizeCNIC (User.cnic u))
  /\ (forall allFiles u f,
         In f (userFiles allFiles (Some u))
         <-> In f allFiles
             /\ normalizeCNIC (PropertyFile.ownerCNIC f)
                = normalizeCNIC (User.cnic u)).
Proof.
  split; [reflexivity|]. split; [reflexivity|].
  split; [intros a b; apply filter_app|].
  split; [|split; [reflexivity|]].
  - intros now text H.
    destruct (ingest_files now text H) as (b & E & U2 & U1 & _).
    exists b. split; [exact E|]. split; [exact U2|]. split; [exact U1|].
    intros st Hst. unfold nextUsers, overlay. simpl. rewrite Hst. simpl.
    apply (values_putAll_fresh userKey (users b) []). exact U2.
  - intros allFiles u f. unfold userFiles. rewrite filter_In.
    unfold userCnicNormalized, orStr. rewrite str_eqb_eq.
    destruct (normalizeCNIC (User.cnic u)); tauto.
Qed.

Lemma identity_key_strips_without_case_change_witness :
  exists b, ingest clock0 dashedCnicCSV = Some b
    /\ NoDup (map (fun u => normalizeCNIC (User.cnic u)) (users b))
    /\ (forall k, In k (map (fun u => normalizeCNIC (User.cnic u)) (users b))
          <-> exists r, In r (dataRows dashedCnicCSV)
                /\ rowKept (headerOf dashedCnicCSV) (snd r) = true
                /\ normalizeCNIC (rowRaw (headerOf dashedCnicCSV) (snd r)) = k)
    /\ forall st, st_users st = [] -> nextUsers st b None = users b.
Proof.
  apply (proj1 (proj2 (proj2 (proj2 identity_key_strips_without_case_change)))
           clock0 dashedCnicCSV).
  vm_compute. lia.
Defined.

(* ================================================================== *)
(** * C3: numeric field parsing *)
(* ================================================================== *)

Lemma In_stripSeparators (v : jsstring) (c : char) :
  In c (stripSeparators v)
  <-> In c v /\ c <> 44%N /\ c <> 40%N /\ c <> 41%N.
Proof.
  unfold stripSeparators. rewrite !filter_In.
  rewrite !negb_true_iff, orb_false_iff, !N.eqb_neq. tauto.
Qed.

Lemma orZero_not_nan (x : number) : is_nan (orZero x) = false.
Proof.
  unfold orZero. destruct (is_nan x) eqn:E; simpl; [reflexivity|].
  destruct (is_zero x); [reflexivity | exact E].
Qed.

Lemma upperChar_letter (c t : char) :
  (65 <= t <= 90)%N -> upperChar c = t -> c = t \/ c = (t + 32)%N.
Proof.
  unfold upperChar. intros Ht.
  destruct ((97 <=? c)%N && (c <=? 122)%N) eqn:E.
  - apply andb_true_iff in E. destruct E as [E1 E2].
    apply N.leb_le in E1, E2. lia.
  - auto.
Qed.

(** A string that reads [NULL] in upper case has no separator and is not a
    number for [parseFloat]. *)
Lemma toUpperCase_NULL (v : jsstring) :
  toUpperCase v = js "NULL" ->
  stripSeparators v = v /\ parseFloat v = nan.
Proof.
  destruct v as [|a [|b [|c [|d [|e v]]]]]; try discriminate.
  intros H. injection H as Ha Hb Hc Hd.
  apply upperChar_letter in Ha, Hb, Hc, Hd; try lia.
  destruct Ha as [-> | ->], Hb as [-> | ->], Hc as [-> | ->],
    Hd as [-> | ->]; split; reflexivity.
Qed.

(** The early return of [parseVal] changes nothing: in all cases the value
    is [parseFloat] of the field without its separators, or 0. *)
Lemma parseVal_stripped (v : jsstring) :
  parseVal (Some v) = orZero (parseFloat (stripSeparators v)).
Proof.
  unfold parseVal. fold (stripSeparators v).
  destruct v as [|c v]; [reflexivity|]. simpl isEmpty. rewrite orb_false_l.
  destruct (str_eqb (toUpperCase (c :: v)) (js "NULL")) eqn:E1.
  - apply str_eqb_eq, toUpperCase_NULL in E1. destruct E1 as [-> ->].
    reflexivity.
  - destruct (str_eqb (c :: v) (js "-")) eqn:E2; [|reflexivity].
    apply str_eqb_eq in E2. rewrite E2. reflexivity.
Qed.

Lemma stripSeparators_app (a b : jsstring) :
  stripSeparators (a ++ b) = stripSeparators a ++ stripSeparators b.
Proof. unfold stripSeparators. now rewrite !filter_app. Qed.

(** C3: the parser gives 0 for the empty string, for a string whose
    uppercase form is [NULL], and for a lone dash (and for an absent field);
    for every other string it deletes the commas and the parentheses, reads
    the rest with [parseFloat] and gives 0 when that is not a number, so the
    result is never [NaN]; two fields that differ only in commas and
    parentheses give the same value, so a field in parentheses gives the
    value of what it encloses, not its negation (["(200)"] gives 200);
    ["1000"] and ["1,000.00"] give the same value. *)
Theorem parseVal_numeric_field :
  parseVal None = 0%float
  /\ (forall v, v = [] \/ toUpperCase v = js "NULL" \/ v = js "-" ->
                parseVal (Some v) = 0%float)
  /\ (forall v, v <> [] -> toUpperCase v <> js "NULL" -> v <> js "-" ->
                parseVal (Some v) = orZero (parseFloat (stripSeparators v)))
  /\ (forall v c, In c (stripSeparators v)
                  <-> In c v /\ c <> 44%N /\ c <> 40%N /\ c <> 41%N)
  /\ (forall v, is_nan (parseFloat (stripSeparators v)) = true ->
                parseVal (Some v) = 0%float)
  /\ (forall v, is_nan (parseVal v) = false)
  /\ (forall v v', stripSeparators v = stripSeparators v' ->
                   parseVal (Some v) = parseVal (Some v'))
  /\ (forall v, parseVal (Some (js "(" ++ v ++ js ")")) = parseVal (Some v))
  /\ parseVal (Some (js "(200)")) = 200%float
  /\ parseVal (Some (js "1000")) = 1000%float
  /\ parseVal (Some (js "1,000.00")) = parseVal (Some (js "1000"))
  /\ parseVal (Some (js "")) = 0%float
  /\ parseVal (Some (js "NULL")) = 0%float
  /\ parseVal (Some (js "null")) = 0%float
  /\ parseVal (Some (js "Null")) = 0%float
  /\ parseVal (Some (js "-")) = 0%float
  /\ parseVal (Some (js "n/a")) = 0%float
  /\ parseVal (Some (js "(1,234.50)")) = 1234.5%float.
Proof.
  split; [reflexivity|]. split.
  { intros v [-> | [H | ->]]; try reflexivity.
    unfold parseVal. apply str_eqb_eq in H. rewrite H.
    now rewrite orb_true_r. }
  split.
  { intros v H1 H2 H3. unfold parseVal.
    apply str_eqb_neq in H2, H3. rewrite H2, H3.
    destruct v; [congruence | reflexivity]. }
  split; [exact In_stripSeparators|]. split.
  { intros v H. unfold parseVal.
    destruct (isEmpty v || str_eqb (toUpperCase v) (js "NULL")
              || str_eqb v (js "-")); [reflexivity|].
    fold (stripSeparators v). unfold orZero. now rewrite H. }
  split.
  { intros [v|]; [|reflexivity]. unfold parseVal.
    destruct (isEmpty v || str_eqb (toUpperCase v) (js "NULL")
              || str_eqb v (js "-")); [reflexivity|].
    apply orZero_not_nan. }
  split.
  { intros v v' H. now rewrite !parseVal_stripped, H. }
  split.
  { intros v. rewrite !parseVal_stripped, !stripSeparators_app.
    change (stripSeparators (js "(")) with (@nil char).
    change (stripSeparators (js ")")) with (@nil char).
    simpl. now rewrite app_nil_r. }
  repeat split; reflexivity.
Qed.

Lemma parseVal_numeric_field_witness :
  parseVal (Some (js "nUlL")) = 0%float
  /\ parseVal (Some (js "(3,000)"))
     = orZero (parseFloat (stripSeparators (js "(3,000)"))).
Proof.
  split.
  - apply (proj1 (proj2 parseVal_numeric_field) (js "nUlL")).
    right; left; reflexivity.
  - apply (proj1 (proj2 (proj2 parseVal_numeric_field)) (js "(3,000)"));
      vm_compute; discriminate.
Defined.

(* ================================================================== *)
(** * C4: what escapes the local store's operations *)
(* ================================================================== *)

(** C4 (the code at the failing inputs): [clear] has no [try]: a failure
    to open the database rejects its promise, and nothing is logged.  In
    [setItem] and [getItem] the [try] encloses [return new Promise(...)]
    without an [await], so it catches only the failure to open: an error of
    the transaction or of the request rejects the promise the caller
    awaits.  The failure to open is the one case caught: [setItem] logs it
    and [getItem] answers [null]. *)
Theorem storage_failures_escape :
  (forall e put get clr,
      AsyncStorage.clear (mkIdb (Rejected e) put get clr)
      = ([IdbOpen], Rejected e))
  /\ (forall e key value get clr,
         AsyncStorage.setItem
           (mkIdb (Fulfilled tt) (fun _ => TxError e) get clr) key value
         = ([IdbOpen; StorePut key value], Rejected e))
  /\ (forall e key put clr,
         AsyncStorage.getItem
           (mkIdb (Fulfilled tt) put (fun _ => ReqError e) clr) key
         = ([IdbOpen; StoreGet key], Rejected e))
  /\ (forall e key value put get clr,
         AsyncStorage.setItem (mkIdb (Rejected e) put get clr) key value
         = ([IdbOpen; ConsoleError (js "Persistence Failure:") e],
            Fulfilled tt))
  /\ (forall e key put get clr,
         AsyncStorage.getItem (mkIdb (Rejected e) put get clr) key
         = ([IdbOpen], Fulfilled None)).
Proof. repeat split. Qed.

(* ================================================================== *)
(** * C8: local persistence before the remote mirror *)
(* ================================================================== *)

Lemma split_after_prefix (A : list event) : forall tail pre x post,
  Forall (fun e => ~ isUpsert e) A ->
  isUpsert x ->
  A ++ tail = pre ++ x :: post ->
  exists q, pre = A ++ q /\ tail = q ++ x :: post.
Proof.
  induction A as [|a A IH]; intros tail pre x post HA Hx E; simpl in *.
  - exists pre. auto.
  - inversion HA as [|? ? Ha HA']; subst.
    destruct pre as [|p pre]; simpl in E.
    + injection E as -> _. contradiction.
    + injection E as -> E.
      destruct (IH _ _ _ _ HA' Hx E) as [q [-> ->]].
      exists q. auto.
Qed.

Lemma storeEvent_not_upsert tr :
  Forall storeEvent tr -> Forall (fun e => ~ isUpsert e) tr.
Proof. apply Forall_impl. intros []; simpl; tauto. Qed.

(** C8: in the events of one call of [handleMassImport], whatever the
    store and the mirror do, every upsert request comes after the three
    state updates and after all events of both [setItem] calls, and there is
    one only if the promise of each [setItem] was fulfilled: the two writes
    are over before the mirror is called. *)
Theorem local_persistence_precedes_remote_upsert
    w cloud st data flag pre table payload post :
  fst (handleMassImport w cloud st data flag)
  = pre ++ Upsert table payload :: post ->
  let nu := nextUsers st data flag in
  let nf := nextFiles st data flag in
  let pu := AsyncStorage.setItem w (js "users") (UsersData nu) in
  let pf := AsyncStorage.setItem w (js "files") (FilesData nf) in
  snd pu = Fulfilled tt
  /\ snd pf = Fulfilled tt
  /\ exists rest,
       pre = [SetIsSyncing true; SetUsers nu; SetAllFiles nf]
             ++ fst pu ++ fst pf ++ rest.
Proof.
  intros H nu nf pu pf.
  rewrite handleMassImport_trace in H. cbv zeta in H.
  fold nu nf in H. fold pu pf in H.
  assert (Hu : Forall (fun e => ~ isUpsert e) (fst pu))
    by apply storeEvent_not_upsert, setItem_events.
  assert (Hf : Forall (fun e => ~ isUpsert e) (fst pf))
    by apply storeEvent_not_upsert, setItem_events.
  assert (H3 : Forall (fun e => ~ isUpsert e)
                 [SetIsSyncing true; SetUsers nu; SetAllFiles nf])
    by (repeat constructor; simpl; tauto).
  assert (Hno : forall tr, Forall (fun e => ~ isUpsert e) tr ->
                  tr ++ [] = pre ++ Upsert table payload :: post -> False).
  { intros tr Htr E. rewrite app_nil_r in E. subst tr.
    apply Forall_app in Htr. destruct Htr as [_ Htr].
    inversion Htr as [|? ? Hx _]; subst. apply Hx. exact I. }
  rewrite !app_assoc in H.
  destruct (snd pu) as [[]| |] eqn:Eu;
    try (exfalso; refine (Hno _ _ H); apply Forall_app; auto).
  rewrite !app_assoc in H.
  destruct (snd pf) as [[]| |] eqn:Ef;
    try (exfalso; refine (Hno _ _ H); repeat (apply Forall_app; split); auto).
  assert (HA : Forall (fun e => ~ isUpsert e)
                 (([SetIsSyncing true; SetUsers nu; SetAllFiles nf] ++ fst pu)
                  ++ fst pf))
    by (repeat (apply Forall_app; split); auto).
  destruct (@split_after_prefix _ _ pre (Upsert table payload) post HA I H)
    as [q [-> _]].
  split; [reflexivity|]. split; [reflexivity|].
  exists q. now rewrite <- !app_assoc.
Qed.

Lemma local_persistence_precedes_remote_upsert_witness :
  snd (AsyncStorage.setItem workingStore (js "users") (UsersData []))
  = Fulfilled tt
  /\ snd (AsyncStorage.setItem workingStore (js "files") (FilesData []))
     = Fulfilled tt
  /\ exists rest,
       [SetIsSyncing true; SetUsers []; SetAllFiles []; IdbOpen;
        StorePut (js "users") (UsersData []); IdbOpen;
        StorePut (js "files") (FilesData []); SetIsSyncing true]
       = [SetIsSyncing true; SetUsers []; SetAllFiles []]
         ++ fst (AsyncStorage.setItem workingStore (js "users") (UsersData []))
         ++ fst (AsyncStorage.setItem workingStore (js "files") (FilesData []))
         ++ rest.
Proof.
  exact (local_persistence_precedes_remote_upsert
           workingStore true emptyState emptyBatch (Some true)
           [SetIsSyncing true; SetUsers []; SetAllFiles []; IdbOpen;
            StorePut (js "users") (UsersData []); IdbOpen;
            StorePut (js "files") (FilesData []); SetIsSyncing true]
           (js "profiles") (UsersData [])
           [SetIsSyncing true; Upsert (js "property_files") (FilesData []);
            SetIsSyncing false]
           eq_refl).
Defined.

(* ================================================================== *)
(** * C6 and C10: the master-sync entry point *)
(* ================================================================== *)

(** C6: a text with fewer than two non-empty lines throws in the [try]
    block before anything is built; [onload] then only raises the
    format-error alert and resets the busy flag, the import callback is not
    called, and the in-memory owner and file collections of the application
    are what they were. *)
Theorem too_short_input_is_a_format_error
    (E : Type) (callback : option (batch -> option bool -> E))
    (now : nat -> Z) (text : jsstring) :
  length (nonEmptyLines text) < 2 ->
  ingest now text = None
  /\ onload callback now text
     = [Alert (js "Format Error: Verify CSV columns."); SetIsProcessing false]
  /\ forall w cloud st, stateAfter st (masterSync w cloud now st text) = st.
Proof.
  intros H. assert (Hi := ingest_too_short now text H).
  split; [exact Hi|]. split.
  - unfold onload. now rewrite Hi.
  - intros w cloud st. unfold masterSync, onload. now rewrite Hi.
Qed.

Lemma too_short_input_is_a_format_error_witness :
  ingest clock0 headerOnlyCSV = None
  /\ onload (@None (batch -> option bool -> unit)) clock0 headerOnlyCSV
     = [Alert (js "Format Error: Verify CSV columns."); SetIsProcessing false]
  /\ forall w cloud st,
       stateAfter st (masterSync w cloud clock0 st headerOnlyCSV) = st.
Proof.
  apply (too_short_input_is_a_format_error
           (@None (batch -> option bool -> unit)) clock0 headerOnlyCSV).
  vm_compute. lia.
Defined.

(** C10: for every text of two or more non-empty lines the ingestion
    succeeds and [onload] calls the import callback exactly once, with the
    ingested batch and the destructive flag [true]; with [handleMassImport]
    as the callback the owner and file collections afterwards are exactly
    the batch's, whatever they were before; and under that flag the merge
    engine does not look at the existing collections at all. *)
Theorem master_sync_is_destructive :
  (forall (E : Type) (f : batch -> option bool -> E) now text,
      2 <= length (nonEmptyLines text) ->
      exists data,
        ingest now text = Some data
        /\ onload (Some f) now text
           = [CallImport (f data (Some true));
              Alert (js "Master Sync Complete: All records locked to local registry.");
              SetIsProcessing false])
  /\ (forall w cloud now st text,
         2 <= length (nonEmptyLines text) ->
         exists data,
           ingest now text = Some data
           /\ stateAfter st (masterSync w cloud now st text)
              = {| st_users := users data; st_allFiles := files data |})
  /\ (forall st data,
         nextUsers st data (Some true) = users data
         /\ nextFiles st data (Some true) = files data).
Proof.
  split; [|split].
  - intros E f now text H.
    destruct (ingest_Inv now text H) as (m & _ & Hi).
    eexists. split; [exact Hi|]. unfold onload. now rewrite Hi.
  - intros w cloud now st text H.
    destruct (ingest_Inv now text H) as (m & _ & Hi).
    eexists. split; [exact Hi|].
    unfold masterSync, onload. rewrite Hi. simpl.
    now rewrite handleMassImport_state.
  - intros st data. split; reflexivity.
Qed.

Lemma master_sync_is_destructive_witness :
  exists data,
    ingest clock0 scenarioCSV = Some data
    /\ stateAfter emptyState
         (masterSync workingStore true clock0 emptyState scenarioCSV)
       = {| st_users := users data; st_allFiles := files data |}.
Proof.
  apply (proj1 (proj2 master_sync_is_destructive)
           workingStore true clock0 emptyState scenarioCSV).
  vm_compute. lia.
Defined.

(* ================================================================== *)
(** * Reading back what was written: lines and fields *)
(* ================================================================== *)

Lemma trimStart_head (s : jsstring) :
  match trimStart s with [] => True | c :: _ => isWhiteSpace c = false end.
Proof.
  induction s as [|c s IH]; simpl; [exact I|].
  destruct (isWhiteSpace c) eqn:E; [exact IH | exact E].
Qed.

Lemma trimStart_fix (s : jsstring) :
  match s with [] => True | c :: _ => isWhiteSpace c = false end ->
  trimStart s = s.
Proof. destruct s as [|c s]; simpl; [reflexivity|]. now intros ->. Qed.

Lemma trimStart_idem (s : jsstring) : trimStart (trimStart s) = trimStart s.
Proof. apply trimStart_fix, trimStart_head. Qed.

Lemma trimStart_split (s : jsstring) : exists pre, s = pre ++ trimStart s.
Proof.
  induction s as [|c s [pre IH]]; simpl.
  - now exists [].
  - destruct (isWhiteSpace c).
    + exists (c :: pre). simpl. now rewrite <- IH.
    + now exists [].
Qed.

Lemma trimEnd_prefix (s : jsstring) : exists suf, s = trimEnd s ++ suf.
Proof.
  unfold trimEnd. destruct (trimStart_split (rev s)) as [pre H].
  exists (rev pre). rewrite <- rev_app_distr, <- H. now rewrite rev_involutive.
Qed.

Lemma In_trim (c : char) (s : jsstring) : In c (trim s) -> In c s.
Proof.
  unfold trim. intros H.
  destruct (trimEnd_prefix (trimStart s)) as [suf E].
  destruct (trimStart_split s) as [pre E'].
  rewrite E'. apply in_app_iff. right.
  rewrite E. apply in_app_iff. now left.
Qed.

Lemma trim_idem (s : jsstring) : trim (trim s) = trim s.
Proof.
  unfold trim. set (t := trimStart s).
  assert (Ht := trimStart_head s). fold t in Ht.
  assert (Hu : trimStart (trimEnd t) = trimEnd t).
  { apply trimStart_fix. destruct (trimEnd_prefix t) as [suf E].
    destruct (trimEnd t) as [|c u]; [exact I|].
    rewrite E in Ht. exact Ht. }
  rewrite Hu. unfold trimEnd at 1. unfold trimEnd at 1.
  rewrite rev_involutive, trimStart_idem. reflexivity.
Qed.

Lemma trimStart_nil_all (s : jsstring) :
  trimStart s = [] -> Forall (fun c => isWhiteSpace c = true) s.
Proof.
  induction s as [|c s IH]; simpl; [constructor|].
  destruct (isWhiteSpace c) eqn:E; [|discriminate].
  intros H. constructor; auto.
Qed.

(** A string with a character that is not white space is not blank. *)
Lemma trim_not_blank (s : jsstring) (c : char) :
  In c s -> isWhiteSpace c = false -> trim s <> [].
Proof.
  intros Hin Hc E. unfold trim, trimEnd in E.
  apply (f_equal (@rev char)) in E. rewrite rev_involutive in E. simpl in E.
  apply trimStart_nil_all in E.
  destruct (trimStart_split s) as [pre Hs].
  assert (Hpre : forall x, In x s -> In x pre \/ In x (trimStart s)).
  { intros x Hx. rewrite Hs in Hx. now apply in_app_iff in Hx. }
  destruct (Hpre c Hin) as [Hp | Ht].
  - (* the stripped prefix is white space only *)
    clear E Hpre. revert pre Hs Hp. induction s as [|d s IH]; intros pre Hs Hp.
    + destruct pre; [destruct Hp | discriminate].
    + simpl in Hs. destruct (isWhiteSpace d) eqn:Ed.
      * destruct pre as [|p pre]; simpl in Hs.
        -- destruct Hp.
        -- injection Hs as -> Hs. destruct Hp as [->|Hp]; [congruence|].
           destruct Hin as [->|Hin]; [congruence|]. eapply IH; eauto.
      * destruct pre as [|p pre]; [destruct Hp|].
        simpl in Hs. injection Hs as -> Hs.
        assert (L : length s = length (pre ++ p :: s)) by now rewrite <- Hs.
        rewrite length_app in L. simpl in L. lia.
  - rewrite Forall_forall in E. specialize (E c).
    rewrite <- in_rev in E. rewrite (E Ht) in Hc. discriminate.
Qed.

Lemma parseCSVLineFrom_clean (line : jsstring) : forall cur inQ,
  ~ In 34%N cur ->
  Forall (fun f => ~ In 34%N f /\ trim f = f) (parseCSVLineFrom cur inQ line).
Proof.
  assert (Hout : forall cur, ~ In 34%N cur ->
                   ~ In 34%N (trim cur) /\ trim (trim cur) = trim cur).
  { intros cur H. split; [|apply trim_idem]. intros Hin. apply H.
    now apply In_trim. }
  induction line as [|c line IH]; intros cur inQ Hcur; simpl.
  - constructor; [now apply Hout | constructor].
  - destruct (c =? 34)%N eqn:Eq; [now apply IH|].
    destruct ((c =? 44)%N && negb inQ).
    + constructor; [now apply Hout | apply IH; simpl; tauto].
    + apply IH. intros Hin. apply in_app_iff in Hin.
      destruct Hin as [Hin|[E|[]]]; [tauto|]. subst c.
      now rewrite N.eqb_refl in Eq.
Qed.

Lemma parseCSVLineFrom_length (line : jsstring) : forall cur,
  ~ In 34%N line ->
  length (parseCSVLineFrom cur false line)
  = S (count_occ N.eq_dec line 44%N).
Proof.
  induction line as [|c line IH]; intros cur H; simpl; [reflexivity|].
  assert (Hc : c <> 34%N) by (intros ->; apply H; now left).
  assert (Hl : ~ In 34%N line) by (intros Hin; apply H; now right).
  apply N.eqb_neq in Hc. rewrite Hc.
  destruct (N.eq_dec c 44%N) as [->|Hne]; simpl.
  - now rewrite IH.
  - apply N.eqb_neq in Hne. rewrite Hne. simpl. now apply IH.
Qed.

Lemma parseCSVLineFrom_not_nil (line : jsstring) : forall cur inQ,
  parseCSVLineFrom cur inQ line <> [].
Proof.
  induction line as [|c line IH]; intros cur inQ; simpl; [discriminate|].
  destruct (c =? 34)%N; [apply IH|].
  destruct ((c =? 44)%N && negb inQ); [discriminate | apply IH].
Qed.

(** X1: the fields [parseCSVLine] returns never hold a double quote and
    have no white space at either end; there is always at least one field,
    and on a line without double quotes there is exactly one field more
    than there are commas. *)
Theorem parseCSVLine_fields :
  forall line,
    Forall (fun f => ~ In 34%N f /\ trim f = f) (parseCSVLine line)
    /\ parseCSVLine line <> []
    /\ (~ In 34%N line ->
        length (parseCSVLine line) = S (count_occ N.eq_dec line 44%N)).
Proof.
  intros line. split; [|split].
  - apply parseCSVLineFrom_clean. simpl. tauto.
  - apply parseCSVLineFrom_not_nil.
  - apply parseCSVLineFrom_length.
Qed.

Lemma parseCSVLineFrom_in_quotes (f : jsstring) : forall cur rest,
  ~ In 34%N f ->
  parseCSVLineFrom cur true (f ++ 34%N :: rest)
  = parseCSVLineFrom (cur ++ f) false rest.
Proof.
  induction f as [|c f IH]; intros cur rest H; simpl.
  - now rewrite app_nil_r.
  - assert (Hc : c <> 34%N) by (intros ->; apply H; now left).
    apply N.eqb_neq in Hc. rewrite Hc, andb_false_r.
    rewrite IH by (intros Hin; apply H; now right).
    now rewrite <- app_assoc.
Qed.

Lemma parseCSVLine_quotedLine_from (fields : list jsstring) :
  fields <> [] ->
  Forall (fun f => ~ In 34%N f /\ trim f = f) fields ->
  parseCSVLineFrom [] false (quotedLine fields) = fields.
Proof.
  unfold quotedLine.
  induction fields as [|f fields IH]; intros Hne HF; [congruence|].
  inversion HF as [|? ? [Hq Ht] HF']; subst.
  destruct fields as [|g fields].
  - simpl. unfold quoted, quote. simpl.
    rewrite parseCSVLineFrom_in_quotes by assumption. simpl. now rewrite Ht.
  - change (joinWith comma (map quoted (f :: g :: fields)))
      with (quoted f ++ comma ++ joinWith comma (map quoted (g :: fields))).
    unfold quoted at 1. unfold quote, comma. simpl.
    rewrite <- app_assoc. simpl.
    rewrite parseCSVLineFrom_in_quotes by assumption. simpl.
    rewrite Ht. f_equal. apply IH; [discriminate | assumption].
Qed.

(** X2: a line written as its fields between double quotes, joined by
    commas, is read back by [parseCSVLine] as exactly those fields, commas
    inside the fields included, provided no field holds a double quote or
    has white space at either end. *)
Theorem parseCSVLine_reads_back_quoted_fields (fields : list jsstring) :
  fields <> [] ->
  Forall (fun f => ~ In 34%N f /\ trim f = f) fields ->
  parseCSVLine (quotedLine fields) = fields.
Proof. apply parseCSVLine_quotedLine_from. Qed.

Lemma parseCSVLine_reads_back_quoted_fields_witness :
  parseCSVLine (quotedLine [js "35202-1234567-1"; js "F1"; js "1,500.00"])
  = [js "35202-1234567-1"; js "F1"; js "1,500.00"].
Proof.
  apply parseCSVLine_reads_back_quoted_fields; [discriminate|].
  repeat constructor; try reflexivity;
    intros H; vm_compute in H; intuition discriminate.
Defined.

Lemma splitLinesFrom_last (l : jsstring) : forall cur,
  ~ In LF l -> ~ In CR l -> splitLinesFrom cur l = [cur ++ l].
Proof.
  induction l as [|c l IH]; intros cur H1 H2; simpl.
  - now rewrite app_nil_r.
  - assert (E1 : (c =? LF)%N = false)
      by (apply N.eqb_neq; intros ->; apply H1; now left).
    assert (E2 : (c =? CR)%N = false)
      by (apply N.eqb_neq; intros ->; apply H2; now left).
    rewrite E1, E2. simpl.
    rewrite IH by (intros Hin; (apply H1 + apply H2); now right).
    now rewrite <- app_assoc.
Qed.

Lemma splitLinesFrom_line (sep l : jsstring) : forall cur rest,
  sep = [LF] \/ sep = [CR; LF] ->
  ~ In LF l -> ~ In CR l ->
  splitLinesFrom cur (l ++ sep ++ rest) = (cur ++ l) :: splitLinesFrom [] rest.
Proof.
  induction l as [|c l IH]; intros cur rest Hsep H1 H2; simpl.
  - rewrite app_nil_r. destruct Hsep as [-> | ->]; reflexivity.
  - assert (E1 : (c =? LF)%N = false)
      by (apply N.eqb_neq; intros ->; apply H1; now left).
    assert (E2 : (c =? CR)%N = false)
      by (apply N.eqb_neq; intros ->; apply H2; now left).
    rewrite E1, E2. simpl.
    rewrite IH; auto; try (intros Hin; (apply H1 + apply H2); now right).
    now rewrite <- app_assoc.
Qed.

Lemma splitLines_joinWith (sep : jsstring) (lines : list jsstring) :
  sep = [LF] \/ sep = [CR; LF] ->
  lines <> [] ->
  Forall (fun l => ~ In LF l /\ ~ In CR l) lines ->
  splitLines (joinWith sep lines) = lines.
Proof.
  unfold splitLines. intros Hsep.
  induction lines as [|l lines IH]; intros Hne HF; [congruence|].
  inversion HF as [|? ? [H1 H2] HF']; subst.
  destruct lines as [|l' lines].
  - simpl. now rewrite splitLinesFrom_last.
  - change (joinWith sep (l :: l' :: lines))
      with (l ++ sep ++ joinWith sep (l' :: lines)).
    rewrite splitLinesFrom_line by assumption. simpl app.
    f_equal. apply IH; [discriminate | assumption].
Qed.

Lemma In_quotedLine (fields : list jsstring) (c : char) :
  In c (quotedLine fields) ->
  c = 34%N \/ c = 44%N \/ exists f, In f fields /\ In c f.
Proof.
  unfold quotedLine. induction fields as [|f fields IH]; simpl; [tauto|].
  assert (Hq : In c (quoted f) -> c = 34%N \/ In c f).
  { unfold quoted, quote. simpl. rewrite in_app_iff. simpl. intuition. }
  assert (Hf : In c (quoted f) ->
               c = 34%N \/ c = 44%N
               \/ exists f0, (f = f0 \/ In f0 fields) /\ In c f0).
  { intros H. destruct (Hq H) as [->|H']; [tauto|].
    right; right. exists f. tauto. }
  destruct (map quoted fields) as [|q qs] eqn:E; [exact Hf|].
  change (34%N :: (f ++ quote) ++ 44%N :: joinWith comma (q :: qs))
    with (quoted f ++ 44%N :: joinWith comma (q :: qs)).
  rewrite in_app_iff. intros [H|H]; [now apply Hf|].
  destruct H as [<-|H]; [tauto|].
  destruct (IH H) as [->|[->|[g [Hg Hc]]]]; [tauto | tauto |].
  right; right. exists g. tauto.
Qed.

Lemma quotedLine_head (fields : list jsstring) :
  fields <> [] -> exists rest, quotedLine fields = 34%N :: rest.
Proof.
  unfold quotedLine. destruct fields as [|f fields]; [congruence|]. intros _.
  simpl. destruct (map quoted fields); unfold quoted, quote; simpl; eauto.
Qed.

Lemma filter_all (A : Type) (p : A -> bool) (l : list A) :
  Forall (fun x => p x = true) l -> filter p l = l.
Proof.
  induction 1 as [|x l Hx _ IH]; simpl; [reflexivity|]. now rewrite Hx, IH.
Qed.

(** X3: a table written as text, every field between double quotes, the
    fields of a line joined by commas and the lines by [\n] or [\r\n], with
    or without a leading byte-order mark, is read back line by line as
    exactly its fields, whenever every line has a field and no field holds
    a double quote, a line break, a byte-order mark, or white space at
    either end. *)
Theorem csv_text_reads_back (sep : jsstring) (bom : bool)
    (rows : list (list jsstring)) :
  sep = [LF] \/ sep = [CR; LF] ->
  Forall (fun fields => fields <> [] /\ Forall plainField fields) rows ->
  map parseCSVLine
    (nonEmptyLines ((if bom then [BOM] else []) ++ csvText sep rows))
  = rows.
Proof.
  intros Hsep HF. unfold nonEmptyLines, csvText.
  assert (Hlines : Forall (fun l => (~ In LF l /\ ~ In CR l)
                                    /\ negb (isEmpty (trim l)) = true
                                    /\ exists rest, l = 34%N :: rest)
                     (map quotedLine rows)).
  { apply Forall_map. revert HF. apply Forall_impl.
    intros fields [Hne Hp].
    assert (Hno : forall c, c <> 34%N -> c <> 44%N ->
                    (forall f, plainField f -> ~ In c f) ->
                    ~ In c (quotedLine fields)).
    { intros c H1 H2 H3 Hin. apply In_quotedLine in Hin.
      destruct Hin as [->|[->|[f [Hf Hc]]]]; try congruence.
      rewrite Forall_forall in Hp. exact (H3 f (Hp f Hf) Hc). }
    destruct (quotedLine_head Hne) as [rest Hrest].
    split; [split|split].
    - apply Hno; try discriminate. now intros f (_ & H & _).
    - apply Hno; try discriminate. now intros f (_ & _ & H & _).
    - destruct (trim (quotedLine fields)) eqn:E; [|reflexivity].
      exfalso. apply (@trim_not_blank (quotedLine fields) 34%N); auto.
      rewrite Hrest. now left.
    - eauto. }
  assert (Hstrip : stripBOM ((if bom then [BOM] else [])
                             ++ joinWith sep (map quotedLine rows))
                   = joinWith sep (map quotedLine rows)).
  { destruct bom; [reflexivity|]. simpl.
    destruct rows as [|r rows]; [reflexivity|].
    inversion Hlines as [|? ? (_ & _ & [rest Hr]) _]; subst.
    simpl. rewrite Hr. destruct (map quotedLine rows); reflexivity. }
  rewrite Hstrip.
  destruct rows as [|r rows]; [reflexivity|].
  rewrite splitLines_joinWith; auto.
  - rewrite filter_all.
    + rewrite map_map. rewrite <- (map_id (r :: rows)) at 2.
      apply map_ext_in. intros fields Hin.
      rewrite Forall_forall in HF. destruct (HF fields Hin) as [Hne Hp].
      apply parseCSVLine_quotedLine_from; auto.
      revert Hp. apply Forall_impl. intros f (H1 & _ & _ & _ & H5). auto.
    + revert Hlines. apply Forall_impl. tauto.
  - discriminate.
  - revert Hlines. apply Forall_impl. tauto.
Qed.

Lemma csv_text_reads_back_witness :
  map parseCSVLine
    (nonEmptyLines ([BOM] ++ csvText [CR; LF]
                      [[js "cnic"; js "itemcode"; js "paid"];
                       [js "35202-1234567-1"; js "F1"; js "1,500.00"]]))
  = [[js "cnic"; js "itemcode"; js "paid"];
     [js "35202-1234567-1"; js "F1"; js "1,500.00"]].
Proof.
  apply (csv_text_reads_back (sep := [CR; LF]) true); [now right|].
  repeat constructor; try discriminate; try reflexivity;
    intros H; vm_compute in H; intuition discriminate.
Defined.

(* ================================================================== *)
(** * What the batch is made of: first rows win *)
(* ================================================================== *)

Lemma existsb_keys_has (V : Type) (m : map_t V) (k : jsstring) :
  existsb (str_eqb k) (keys m) = has m k.
Proof.
  destruct (has m k) eqn:E.
  - apply has_true_iff in E. apply existsb_exists. exists k.
    split; [exact E | apply str_eqb_refl].
  - apply has_false_iff in E.
    destruct (existsb (str_eqb k) (keys m)) eqn:E'; [|reflexivity].
    apply existsb_exists in E'. destruct E' as [x [Hx Hk]].
    apply str_eqb_eq in Hk. subst x. contradiction.
Qed.

Lemma keys_set_addKey (V : Type) (m : map_t V) (k : jsstring) (v : V) :
  keys (set m k v) = addKey (keys m) k.
Proof.
  unfold addKey. rewrite existsb_keys_has. destruct (has m k) eqn:E.
  - now apply keys_set_present.
  - now apply keys_set_absent.
Qed.

Lemma keys_ensure_addKey (V : Type) (m : map_t V) (k : jsstring) (v : V) :
  keys (if has m k then m else set m k v) = addKey (keys m) k.
Proof.
  destruct (has m k) eqn:E; [|apply keys_set_addKey].
  unfold addKey. now rewrite existsb_keys_has, E.
Qed.

Lemma addKey_present (acc : list jsstring) (k : jsstring) :
  In k acc -> addKey acc k = acc.
Proof.
  intros H. unfold addKey.
  assert (E : existsb (str_eqb k) acc = true).
  { apply existsb_exists. exists k. split; [exact H | apply str_eqb_refl]. }
  now rewrite E.
Qed.

Lemma firstOccurrences_snoc (l : list jsstring) (k : jsstring) :
  firstOccurrences (l ++ [k]) = addKey (firstOccurrences l) k.
Proof. unfold firstOccurrences. now rewrite fold_left_app. Qed.

Section BatchFacts.
Variable now : nat -> Z.
Variable normH : list jsstring.

Lemma firstKept_snoc key k rows r :
  firstKept normH key k (rows ++ [r])
  = match firstKept normH key k rows with
    | Some x => Some x
    | None => if rowKept normH (snd r) && str_eqb (key (snd r)) k
              then Some r else None
    end.
Proof. unfold firstKept. apply find_snoc. Qed.

Lemma firstKept_None key k rows :
  ~ keptWith normH key rows k -> firstKept normH key k rows = None.
Proof.
  intros H.
  destruct (firstKept normH key k rows) as [r|] eqn:E; [|reflexivity].
  exfalso. apply H. unfold firstKept in E. apply find_some in E. destruct E as [Hin Hb].
  apply andb_true_iff in Hb. destruct Hb as [Hk He].
  apply str_eqb_eq in He. exists r. auto.
Qed.

Lemma keptKeys_snoc key rows r :
  keptKeys normH key (rows ++ [r])
  = keptKeys normH key rows
    ++ (if rowKept normH (snd r) then [key (snd r)] else []).
Proof.
  unfold keptKeys. rewrite filter_app, map_app. simpl.
  now destruct (rowKept normH (snd r)).
Qed.

Lemma ownersInv_step rows m idx line m' :
  Inv now normH rows m ->
  ownersInv normH rows m ->
  processRow now normH m idx line = Some m' ->
  ownersInv normH (rows ++ [(idx, line)]) m'.
Proof.
  intros HI [Hk Hu] Hp. destruct (rowKept normH line) eqn:K.
  - destruct (processRow_kept now normH m idx line K)
      as (owner & prop & Ho & _ & E).
    rewrite E in Hp. injection Hp as <-. simpl. split.
    + rewrite keptKeys_snoc. simpl. rewrite K, firstOccurrences_snoc, <- Hk.
      unfold userMapAfter. apply keys_ensure_addKey.
    + intros k u. rewrite firstKept_snoc. simpl. rewrite K. simpl.
      unfold userMapAfter.
      destruct (has (userMap m) (rowNorm normH line)) eqn:E'.
      * intros Hg. destruct (Hu k u Hg) as [r [Hr ->]].
        rewrite Hr. eauto.
      * destruct (jsstring_eq_dec (rowNorm normH line) k) as [<-|Hne].
        -- rewrite get_set_same. intros H; injection H as <-.
           rewrite firstKept_None.
           ++ rewrite str_eqb_refl. eexists. split; reflexivity.
           ++ rewrite <- (inv_ukeys HI). now apply has_false_iff.
        -- rewrite get_set_other by assumption. intros Hg.
           destruct (Hu k u Hg) as [r [Hr ->]]. rewrite Hr. eauto.
  - rewrite processRow_skipped in Hp by assumption. injection Hp as <-.
    split.
    + rewrite keptKeys_snoc. simpl. rewrite K, app_nil_r. exact Hk.
    + intros k u Hg. destruct (Hu k u Hg) as [r [Hr ->]].
      rewrite firstKept_snoc, Hr. eauto.
Qed.

Lemma fileOfRows_snoc_other k rows r owner first :
  rowKept normH (snd r) && str_eqb (rowItem normH (snd r)) k = false ->
  fileOfRows now normH k (rows ++ [r]) owner first
  = fileOfRows now normH k rows owner first.
Proof.
  intros H. unfold fileOfRows. now rewrite rowsOf_snoc, H, app_nil_r.
Qed.

Lemma fileOfRows_snoc_same rows idx line owner first :
  rowKept normH line = true ->
  fileOfRows now normH (rowItem normH line) (rows ++ [(idx, line)]) owner first
  = propAfter now normH idx line
      (fileOfRows now normH (rowItem normH line) rows owner first).
Proof.
  intros K. unfold fileOfRows. rewrite rowsOf_snoc. simpl.
  rewrite K, str_eqb_refl. simpl. now rewrite fold_left_app.
Qed.

Lemma filesInv_step rows m idx line m' :
  Inv now normH rows m ->
  ownersInv normH rows m ->
  filesInv now normH rows m ->
  processRow now normH m idx line = Some m' ->
  filesInv now normH (rows ++ [(idx, line)]) m'.
Proof.
  intros HI HO [Hk Hf] Hp.
  assert (HO' := ownersInv_step idx line HI HO Hp).
  destruct (rowKept normH line) eqn:K.
  - destruct (processRow_kept now normH m idx line K)
      as (owner & prop & Ho & Hprop & E).
    rewrite E in Hp. injection Hp as <-. simpl. split.
    + rewrite keptKeys_snoc. simpl. rewrite K, firstOccurrences_snoc, <- Hk.
      rewrite keys_set_addKey. unfold fileMapAfter.
      rewrite keys_ensure_addKey. unfold addKey at 1.
      assert (Hin : existsb (str_eqb (rowItem normH line))
                      (addKey (keys (fileMap m)) (rowItem normH line)) = true).
      { apply existsb_exists. exists (rowItem normH line).
        split; [|apply str_eqb_refl]. unfold addKey.
        destruct (existsb _ (keys (fileMap m))) eqn:E'.
        - apply existsb_exists in E'. destruct E' as [x [Hx Hxe]].
          apply str_eqb_eq in Hxe. now subst x.
        - apply in_app_iff. right. now left. }
      now rewrite Hin.
    + (* the entries *)
      assert (Hkeep : forall key k r,
                 firstKept normH key k rows = Some r ->
                 firstKept normH key k (rows ++ [(idx, line)]) = Some r).
      { intros key k r Hr. now rewrite firstKept_snoc, Hr. }
      intros k f. cbn [fileMap userMap].
      destruct (jsstring_eq_dec (rowItem normH line) k) as [<-|Hne].
      * rewrite get_set_same. intros H; injection H as <-.
        unfold fileMapAfter in Hprop.
        destruct (has (fileMap m) (rowItem normH line)) eqn:E'.
        -- destruct (Hf _ _ Hprop) as (r & r0 & Hr & Hr0 & ->).
           exists r, r0. split; [now apply Hkeep|].
           split; [now apply Hkeep|].
           now rewrite fileOfRows_snoc_same.
        -- rewrite get_set_same in Hprop. injection Hprop as <-.
           assert (Habs : ~ keptWith normH (rowItem normH) rows
                            (rowItem normH line)).
           { rewrite <- (inv_fkeys HI). now apply has_false_iff. }
           destruct HO' as [_ HO']. simpl in HO'.
           destruct (HO' _ _ Ho) as [r0 [Hr0 ->]].
           exists (idx, line), r0. split; [|split].
           ++ rewrite firstKept_snoc, (firstKept_None Habs). simpl.
              now rewrite K, str_eqb_refl.
           ++ exact Hr0.
           ++ rewrite fileOfRows_snoc_same by assumption.
              unfold fileOfRows. rewrite (rowsOf_nil_of_absent Habs).
              reflexivity.
      * rewrite get_set_other by assumption. intros Hg.
        assert (Hg' : get (fileMap m) k = Some f).
        { unfold fileMapAfter in Hg.
          destruct (has (fileMap m) (rowItem normH line)); auto.
          now rewrite get_set_other in Hg. }
        destruct (Hf _ _ Hg') as (r & r0 & Hr & Hr0 & ->).
        exists r, r0. split; [now apply Hkeep|]. split; [now apply Hkeep|].
        symmetry. apply fileOfRows_snoc_other. simpl.
        apply andb_false_iff. right. now apply str_eqb_neq.
  - rewrite processRow_skipped in Hp by assumption. injection Hp as <-.
    split.
    + rewrite keptKeys_snoc. simpl. rewrite K, app_nil_r. exact Hk.
    + intros k f Hg. destruct (Hf k f Hg) as (r & r0 & Hr & Hr0 & ->).
      exists r, r0. rewrite !firstKept_snoc, Hr, Hr0.
      split; [reflexivity|]. split; [reflexivity|].
      symmetry. apply fileOfRows_snoc_other. simpl. now rewrite K.
Qed.

Lemma forEachRow_batch lines : forall done m idx,
  Inv now normH done m ->
  ownersInv normH done m ->
  filesInv now normH done m ->
  exists m', forEachRow now normH m idx lines = Some m'
             /\ Inv now normH (done ++ indexedFrom idx lines) m'
             /\ ownersInv normH (done ++ indexedFrom idx lines) m'
             /\ filesInv now normH (done ++ indexedFrom idx lines) m'.
Proof.
  induction lines as [|l lines IH]; intros done m idx HI HO HF; simpl.
  - exists m. now rewrite app_nil_r.
  - destruct (Inv_step idx l HI) as (m1 & Hp & HI1).
    rewrite Hp.
    destruct (IH _ _ (S idx) HI1 (ownersInv_step idx l HI HO Hp)
                (filesInv_step idx l HI HO HF Hp))
      as (m' & Hm' & HI' & HO' & HF').
    exists m'. rewrite <- app_assoc in HI', HO', HF'. auto.
Qed.

End BatchFacts.

Lemma ingest_batch now text :
  2 <= length (nonEmptyLines text) ->
  exists m,
    ingest now text = Some {| users := values (userMap m);
                              files := values (fileMap m) |}
    /\ Inv now (headerOf text) (dataRows text) m
    /\ ownersInv (headerOf text) (dataRows text) m
    /\ filesInv now (headerOf text) (dataRows text) m.
Proof.
  unfold ingest, headerOf, dataRows.
  destruct (nonEmptyLines text) as [|h [|r rows]]; simpl; try lia.
  intros _.
  destruct (@forEachRow_batch now (normHeaders h) (r :: rows) [] emptyMaps 0)
    as (m' & Hm' & HI & HO & HF).
  - apply Inv_empty.
  - split; [reflexivity | discriminate].
  - split; [reflexivity | discriminate].
  - simpl in Hm', HI, HO, HF. unfold emptyMaps in Hm'.
    exists m'. now rewrite Hm'.
Qed.

(* ================================================================== *)
(** * Header resolution *)
(* ================================================================== *)

Lemma indexOf_Some (l : list jsstring) (x : jsstring) : forall i,
  indexOf l x = Some i ->
  nth_error l i = Some x /\ forall j, j < i -> nth_error l j <> Some x.
Proof.
  induction l as [|y l IH]; intros i; simpl; [discriminate|].
  destruct (str_eqb y x) eqn:E.
  - intros H; injection H as <-. apply str_eqb_eq in E. subst y.
    split; [reflexivity | intros j Hj; lia].
  - destruct (indexOf l x) as [i'|]; [|discriminate].
    intros H; injection H as <-. destruct (IH i' eq_refl) as [Hn Hf].
    split; [exact Hn|]. intros [|j] Hj; simpl.
    + apply str_eqb_neq in E. congruence.
    + apply Hf. lia.
Qed.

Lemma indexOf_None (l : list jsstring) (x : jsstring) :
  indexOf l x = None <-> ~ In x l.
Proof.
  induction l as [|y l IH]; simpl; [tauto|].
  destruct (str_eqb y x) eqn:E.
  - apply str_eqb_eq in E. split; [discriminate | tauto].
  - apply str_eqb_neq in E. destruct (indexOf l x).
    + split; [discriminate|]. intros H. exfalso.
      assert (Hx : ~ In x l) by tauto.
      apply (proj2 IH) in Hx. discriminate.
    + split; [|reflexivity]. intros _ [H|H]; [congruence|].
      now apply (proj1 IH).
Qed.

Lemma getIdx_None (normH names : list jsstring) :
  getIdx normH names = None
  <-> forall n, In n names -> ~ In (toLowerCase n) normH.
Proof.
  induction names as [|n names IH]; simpl.
  - split; [intros _ n [] | reflexivity].
  - destruct (indexOf normH (toLowerCase n)) eqn:E.
    + split; [discriminate|]. intros H. exfalso.
      assert (Hn : indexOf normH (toLowerCase n) = None)
        by (apply indexOf_None, H; now left).
      congruence.
    + apply indexOf_None in E. rewrite IH. split.
      * intros H a [<-|Ha]; auto.
      * intros H a Ha. apply H. now right.
Qed.

(** X4: header resolution.  A field is found exactly when one of its
    aliases, in lower case, is a header cell; the alias that counts is the
    first of the list that occurs, whichever alias stands first in the
    header, and the column is that alias's first occurrence; the value of a
    row is the trimmed cell of that column, and [undefined] when the row is
    too short or when no alias occurs. *)
Theorem header_alias_resolution :
  forall normH names,
    (getIdx normH names = None
     <-> forall n, In n names -> ~ In (toLowerCase n) normH)
    /\ (forall i, getIdx normH names = Some i ->
          exists pre n post,
            names = pre ++ n :: post
            /\ (forall a, In a pre -> ~ In (toLowerCase a) normH)
            /\ nth_error normH i = Some (toLowerCase n)
            /\ forall j, j < i -> nth_error normH j <> Some (toLowerCase n))
    /\ (forall arr,
          col normH arr names
          = match getIdx normH names with
            | Some i => option_map trim (nth_error arr i)
            | None => None
            end).
Proof.
  intros normH names. split; [apply getIdx_None|]. split.
  - induction names as [|n names IH]; intros i; simpl; [discriminate|].
    destruct (indexOf normH (toLowerCase n)) as [i'|] eqn:E.
    + intros H; injection H as <-. exists [], n, names.
      split; [reflexivity|]. split; [intros a []|].
      now apply indexOf_Some.
    + intros H. destruct (IH i H) as (pre & a & post & -> & Hpre & Hrest).
      exists (n :: pre), a, post. split; [reflexivity|]. split; [|exact Hrest].
      intros b [<-|Hb]; [now apply indexOf_None | now apply Hpre].
  - intros arr. unfold col. destruct (getIdx normH names); [|reflexivity].
    now destruct (nth_error arr n).
Qed.

(* ================================================================== *)
(** * A header without the natural keys *)
(* ================================================================== *)

Lemma forEachRow_all_skipped now normH (lines : list jsstring) : forall m idx,
  (forall line, rowKept normH line = false) ->
  forEachRow now normH m idx lines = Some m.
Proof.
  induction lines as [|l lines IH]; intros m idx H; simpl; [reflexivity|].
  rewrite processRow_skipped by apply H. now apply IH.
Qed.

(** X5: when the header names no alias of the identity number, or no
    alias of the file code, every data row is skipped: a text of two or
    more lines is still ingested without an error, as the empty batch, and
    the master sync, which imports destructively, leaves the application
    with no owner and no file, whatever it held before. *)
Theorem header_without_keys_empties_registry now text :
  2 <= length (nonEmptyLines text) ->
  getIdx (headerOf text) cnicAliases = None
  \/ getIdx (headerOf text) itemCodeAliases = None ->
  ingest now text = Some {| users := []; files := [] |}
  /\ forall w cloud st,
       stateAfter st (masterSync w cloud now st text)
       = {| st_users := []; st_allFiles := [] |}.
Proof.
  intros H Hno.
  assert (Hskip : forall line, rowKept (headerOf text) line = false).
  { intros line. unfold rowKept, rowNorm, rowRaw, rowItem, rawCNICOf,
      itemCodeOf, col.
    fold cnicAliases. fold itemCodeAliases.
    destruct Hno as [-> | ->]; simpl; [reflexivity|].
    now rewrite orb_true_r. }
  assert (E : ingest now text = Some {| users := []; files := [] |}).
  { revert Hskip. unfold ingest, headerOf.
    destruct (nonEmptyLines text) as [|h [|r rows]]; simpl in *; try lia.
    intros Hskip.
    pose proof (forEachRow_all_skipped now (normHeaders h) (r :: rows)
                  {| userMap := []; fileMap := [] |} 0 Hskip) as F.
    simpl in F. now rewrite F. }
  split; [exact E|]. intros w cloud st.
  unfold masterSync, onload. rewrite E. simpl.
  now rewrite handleMassImport_state.
Qed.

Lemma header_without_keys_empties_registry_witness :
  ingest clock0 unknownHeaderCSV = Some {| users := []; files := [] |}
  /\ forall w cloud st,
       stateAfter st (masterSync w cloud clock0 st unknownHeaderCSV)
       = {| st_users := []; st_allFiles := [] |}.
Proof.
  apply (header_without_keys_empties_registry clock0 unknownHeaderCSV).
  - vm_compute. lia.
  - left. reflexivity.
Defined.

(* ================================================================== *)
(** * Owners and files of a batch *)
(* ================================================================== *)

Lemma firstKept_Some normH key k rows r :
  firstKept normH key k rows = Some r ->
  In r rows /\ rowKept normH (snd r) = true /\ key (snd r) = k.
Proof.
  unfold firstKept. intros H. apply find_some in H. destruct H as [Hin Hb].
  apply andb_true_iff in Hb. destruct Hb as [Hk He].
  apply str_eqb_eq in He. auto.
Qed.

(** X6: the owners of a batch stand in the order in which their
    identity numbers first occur among the rows that are not skipped, and
    each owner is the record built from the first such row of its number:
    that row's raw identity string, name and phone (later rows of the same
    number change nothing), the identifier [user-] followed by the key, the
    key followed by [@dinproperties.com.pk] as e-mail, role [CLIENT],
    status [Active] and the fixed password. *)
Theorem owners_come_from_first_rows now text :
  2 <= length (nonEmptyLines text) ->
  exists b,
    ingest now text = Some b
    /\ map userKey (users b)
       = firstOccurrences
           (keptKeys (headerOf text) (rowNorm (headerOf text)) (dataRows text))
    /\ forall u, In u (users b) ->
         exists r,
           firstKept (headerOf text) (rowNorm (headerOf text)) (userKey u)
             (dataRows text) = Some r
           /\ u = ownerOfRow (headerOf text) (snd r)
           /\ User.cnic u = rowRaw (headerOf text) (snd r)
           /\ User.id u = js "user-" ++ userKey u
           /\ User.email u = userKey u ++ js "@dinproperties.com.pk"
           /\ User.role u = js "CLIENT"
           /\ User.status u = js "Active"
           /\ User.password u = js "password123".
Proof.
  intros H.
  destruct (ingest_batch now text H) as (m & E & HI & [Hk Hu] & _).
  eexists. split; [exact E|]. simpl. split.
  - unfold userKey.
    rewrite (map_key_values (fun u => normalizeCNIC (User.cnic u)) (userMap m)
               (inv_unodup HI) (inv_user HI)).
    exact Hk.
  - intros u Hin.
    destruct (In_values_get (userMap m) u (inv_unodup HI) Hin) as [k Hg].
    destruct (Hu k u Hg) as [r [Hr ->]].
    assert (Hkey : userKey (ownerOfRow (headerOf text) (snd r)) = k).
    { apply firstKept_Some in Hr. destruct Hr as (_ & _ & <-). reflexivity. }
    exists r. rewrite Hkey. split; [exact Hr|].
    apply firstKept_Some in Hr. destruct Hr as (_ & _ & <-).
    repeat split; reflexivity.
Qed.

Lemma owners_come_from_first_rows_witness :
  exists b,
    ingest clock0 scenarioCSV = Some b
    /\ map userKey (users b)
       = firstOccurrences
           (keptKeys (headerOf scenarioCSV) (rowNorm (headerOf scenarioCSV))
              (dataRows scenarioCSV))
    /\ forall u, In u (users b) ->
         exists r,
           firstKept (headerOf scenarioCSV) (rowNorm (headerOf scenarioCSV))
             (userKey u) (dataRows scenarioCSV) = Some r
           /\ u = ownerOfRow (headerOf scenarioCSV) (snd r)
           /\ User.cnic u = rowRaw (headerOf scenarioCSV) (snd r)
           /\ User.id u = js "user-" ++ userKey u
           /\ User.email u = userKey u ++ js "@dinproperties.com.pk"
           /\ User.role u = js "CLIENT"
           /\ User.status u = js "Active"
           /\ User.password u = js "password123".
Proof.
  apply (owners_come_from_first_rows clock0 scenarioCSV). vm_compute. lia.
Defined.

Lemma description_fileOfRows now normH k rows owner first :
  description (fileOfRows now normH k rows owner first)
  = description (newFile normH (parseCSVLine (snd first))
                   (rowRaw normH (snd first)) k owner).
Proof.
  unfold fileOfRows. generalize (rowsOf normH k rows) as l.
  generalize (newFile normH (parseCSVLine (snd first))
                (rowRaw normH (snd first)) k owner) as p.
  intros p l. revert p. induction l as [|r l IH]; intros p; simpl;
    [reflexivity|].
  now rewrite IH.
Qed.

(** X7: the files of a batch stand in the order in which their codes
    first occur among the rows that are not skipped.  Each file is the
    record seeded from the first such row of its code and then updated by
    every such row in order; so all its fields other than the two running
    totals and the transactions are those of the record the first row
    gives, its [ownerCNIC] is that row's raw identity string, and its
    [ownerName] is the name on the first row, not skipped, of that row's
    identity number. *)
Theorem files_come_from_first_rows now text :
  2 <= length (nonEmptyLines text) ->
  exists b,
    ingest now text = Some b
    /\ map PropertyFile.fileNo (files b)
       = firstOccurrences
           (keptKeys (headerOf text) (rowItem (headerOf text)) (dataRows text))
    /\ forall f, In f (files b) ->
         exists r r0,
           firstKept (headerOf text) (rowItem (headerOf text))
             (PropertyFile.fileNo f) (dataRows text) = Some r
           /\ firstKept (headerOf text) (rowNorm (headerOf text))
                (rowNorm (headerOf text) (snd r)) (dataRows text) = Some r0
           /\ f = fileOfRows now (headerOf text) (PropertyFile.fileNo f)
                    (dataRows text) (ownerOfRow (headerOf text) (snd r0)) r
           /\ description f
              = description
                  (newFile (headerOf text) (parseCSVLine (snd r))
                     (rowRaw (headerOf text) (snd r)) (PropertyFile.fileNo f)
                     (ownerOfRow (headerOf text) (snd r0)))
           /\ PropertyFile.ownerCNIC f = rowRaw (headerOf text) (snd r)
           /\ PropertyFile.ownerName f
              = User.name (ownerOfRow (headerOf text) (snd r0)).
Proof.
  intros H.
  destruct (ingest_batch now text H) as (m & E & HI & _ & [Hk Hf]).
  assert (Hno : forall k f, get (fileMap m) k = Some f ->
                            PropertyFile.fileNo f = k).
  { intros k f Hg. now destruct (@inv_file _ _ _ _ HI k f Hg). }
  eexists. split; [exact E|]. simpl. split.
  - rewrite (map_key_values PropertyFile.fileNo (fileMap m)
               (inv_fnodup HI) Hno).
    exact Hk.
  - intros f Hin.
    destruct (In_values_get (fileMap m) f (inv_fnodup HI) Hin) as [k Hg].
    destruct (Hf k f Hg) as (r & r0 & Hr & Hr0 & Ef).
    rewrite (Hno k f Hg). exists r, r0.
    split; [exact Hr|]. split; [exact Hr0|]. split; [exact Ef|].
    assert (D := description_fileOfRows now (headerOf text) k (dataRows text)
                   (ownerOfRow (headerOf text) (snd r0)) r).
    rewrite <- Ef in D. split; [exact D|].
    unfold description in D. simpl in D.
    split; congruence.
Qed.

Lemma files_come_from_first_rows_witness :
  exists b,
    ingest clock0 scenarioCSV = Some b
    /\ map PropertyFile.fileNo (files b)
       = firstOccurrences
           (keptKeys (headerOf scenarioCSV) (rowItem (headerOf scenarioCSV))
              (dataRows scenarioCSV))
    /\ forall f, In f (files b) ->
         exists r r0,
           firstKept (headerOf scenarioCSV) (rowItem (headerOf scenarioCSV))
             (PropertyFile.fileNo f) (dataRows scenarioCSV) = Some r
           /\ firstKept (headerOf scenarioCSV) (rowNorm (headerOf scenarioCSV))
                (rowNorm (headerOf scenarioCSV) (snd r)) (dataRows scenarioCSV)
              = Some r0
           /\ f = fileOfRows clock0 (headerOf scenarioCSV)
                    (PropertyFile.fileNo f) (dataRows scenarioCSV)
                    (ownerOfRow (headerOf scenarioCSV) (snd r0)) r
           /\ description f
              = description
                  (newFile (headerOf scenarioCSV) (parseCSVLine (snd r))
                     (rowRaw (headerOf scenarioCSV) (snd r))
                     (PropertyFile.fileNo f)
                     (ownerOfRow (headerOf scenarioCSV) (snd r0)))
           /\ PropertyFile.ownerCNIC f = rowRaw (headerOf scenarioCSV) (snd r)
           /\ PropertyFile.ownerName f
              = User.name (ownerOfRow (headerOf scenarioCSV) (snd r0)).
Proof.
  apply (files_come_from_first_rows clock0 scenarioCSV). vm_compute. lia.
Defined.

(* ================================================================== *)
(** * C9: the owner linkage of a file *)
(* ================================================================== *)

Lemma indexedFrom_fst_ge lines : forall i r,
  In r (indexedFrom i lines) -> i <= fst r.
Proof.
  induction lines as [|l lines IH]; intros i r; simpl; [tauto|].
  intros [<- | Hin]; simpl; [lia|].
  apply IH in Hin. lia.
Qed.

(** The row [firstKept] finds has the least index among the rows, not
    skipped, with the same key. *)
Lemma firstKept_least normH key k lines : forall i r,
  firstKept normH key k (indexedFrom i lines) = Some r ->
  forall r', In r' (indexedFrom i lines) ->
             rowKept normH (snd r') = true -> key (snd r') = k ->
             fst r <= fst r'.
Proof.
  unfold firstKept.
  induction lines as [|l lines IH]; intros i r; simpl; [discriminate|].
  destruct (rowKept normH l && str_eqb (key l) k) eqn:C.
  - intros Er r' [<- | Hin] _ _; injection Er as <-; simpl; [lia|].
    apply indexedFrom_fst_ge in Hin. lia.
  - intros Er r' [<- | Hin] Hk He.
    + simpl in Hk, He. rewrite Hk, He, str_eqb_refl in C. discriminate.
    + now apply (IH (S i) r Er r').
Qed.

(** C9, as stated, fails: the file keeps the raw identity string of its
    row, separators included, not the normalized number. *)
Lemma ownerCNIC_is_the_raw_string :
  exists b f,
    ingest clock0 dashedCnicCSV = Some b
    /\ files b = [f]
    /\ PropertyFile.ownerCNIC f = js "35202-1234567-1"
    /\ normalizeCNIC (js "35202-1234567-1") = js "3520212345671"
    /\ PropertyFile.ownerCNIC f <> normalizeCNIC (js "35202-1234567-1").
Proof.
  destruct (ingest clock0 dashedCnicCSV) as [b|] eqn:E;
    vm_compute in E; [|discriminate].
  injection E as <-.
  eexists. eexists. repeat (split; [reflexivity|]).
  vm_compute. discriminate.
Qed.

(** C9 (amended): for every file of an ingested batch, [ownerCNIC] is the
    raw identity string of the row that created the file, that is, of the
    first data row, among those not skipped, that bears the file's code
    (the one of least index: a later row of the same code with another
    identity does not relink the file).  The batch holds the Owner created
    by the first row, not skipped, of that identity number: its normalized
    identity number equals the normalized [ownerCNIC], its display name is
    the file's [ownerName], it is the only owner of the batch with that
    number, and its view [userFiles] contains the file. *)
Theorem owner_linkage_references_batch_owner now text :
  2 <= length (nonEmptyLines text) ->
  exists b, ingest now text = Some b
    /\ forall f, In f (files b) ->
         exists r r0 u,
           firstKept (headerOf text) (rowItem (headerOf text))
             (PropertyFile.fileNo f) (dataRows text) = Some r
           /\ In r (dataRows text)
           /\ rowKept (headerOf text) (snd r) = true
           /\ rowItem (headerOf text) (snd r) = PropertyFile.fileNo f
           /\ (forall r', In r' (dataRows text) ->
                          rowKept (headerOf text) (snd r') = true ->
                          rowItem (headerOf text) (snd r')
                          = PropertyFile.fileNo f ->
                          fst r <= fst r')
           /\ PropertyFile.ownerCNIC f = rowRaw (headerOf text) (snd r)
           /\ firstKept (headerOf text) (rowNorm (headerOf text))
                (normalizeCNIC (PropertyFile.ownerCNIC f)) (dataRows text)
              = Some r0
           /\ u = ownerOfRow (headerOf text) (snd r0)
           /\ In u (users b)
           /\ PropertyFile.ownerName f = User.name u
           /\ normalizeCNIC (PropertyFile.ownerCNIC f)
              = normalizeCNIC (User.cnic u)
           /\ (forall u', In u' (users b) ->
                          normalizeCNIC (User.cnic u')
                          = normalizeCNIC (PropertyFile.ownerCNIC f) ->
                          u' = u)
           /\ In f (App.userFiles (files b) (Some u)).
Proof.
  intros H.
  destruct (ingest_batch now text H) as (m & E & HI & [_ Hu] & [_ Hf]).
  eexists. split; [exact E|]. simpl. intros f Hin.
  destruct (In_values_get (fileMap m) f (inv_fnodup HI) Hin) as [k Hg].
  destruct (Hf k f Hg) as (r & r0 & Hr & Hr0 & Ef).
  assert (Hno : PropertyFile.fileNo f = k).
  { now destruct (@inv_file _ _ _ _ HI k f Hg). }
  assert (D := description_fileOfRows now (headerOf text) k (dataRows text)
                 (ownerOfRow (headerOf text) (snd r0)) r).
  rewrite <- Ef in D. unfold description in D. simpl in D.
  assert (Hraw : PropertyFile.ownerCNIC f = rowRaw (headerOf text) (snd r))
    by congruence.
  assert (Hname : PropertyFile.ownerName f
                  = User.name (ownerOfRow (headerOf text) (snd r0)))
    by (simpl; congruence).
  destruct (firstKept_Some _ _ _ _ Hr) as (Hinr & Hkr & Hir).
  destruct (firstKept_Some _ _ _ _ Hr0) as (Hinr0 & Hkr0 & Hnr0).
  assert (Hkey : normalizeCNIC (PropertyFile.ownerCNIC f)
                 = rowNorm (headerOf text) (snd r)).
  { rewrite Hraw. reflexivity. }
  assert (Hget : get (userMap m) (rowNorm (headerOf text) (snd r))
                 = Some (ownerOfRow (headerOf text) (snd r0))).
  { assert (Hk : In (rowNorm (headerOf text) (snd r)) (keys (userMap m))).
    { apply (inv_ukeys HI). exists r. auto. }
    apply has_true_iff, has_get in Hk. destruct Hk as [u' Hu'].
    destruct (Hu _ _ Hu') as (r1 & Hr1 & ->).
    rewrite Hr0 in Hr1. injection Hr1 as <-. exact Hu'. }
  exists r, r0, (ownerOfRow (headerOf text) (snd r0)).
  rewrite Hno, Hkey.
  split; [exact Hr|]. split; [exact Hinr|]. split; [exact Hkr|].
  split; [exact Hir|]. split.
  { intros r'. unfold dataRows in *. now apply firstKept_least. }
  split; [exact Hraw|]. split; [exact Hr0|]. split; [reflexivity|].
  split; [now apply get_In_values with (rowNorm (headerOf text) (snd r))|].
  split; [exact Hname|]. split; [now rewrite <- Hnr0|]. split.
  - intros u' Hin' Hk'.
    destruct (In_values_get (userMap m) u' (inv_unodup HI) Hin') as [k' Hg'].
    rewrite (inv_user HI k' Hg') in Hk'. subst k'. congruence.
  - unfold App.userFiles. apply filter_In. split; [exact Hin|].
    apply str_eqb_eq. unfold App.userCnicNormalized, orStr. rewrite Hkey.
    change (normalizeCNIC (User.cnic (ownerOfRow (headerOf text) (snd r0))))
      with (rowNorm (headerOf text) (snd r0)).
    rewrite Hnr0.
    destruct (rowNorm (headerOf text) (snd r)); reflexivity.
Qed.

Lemma owner_linkage_references_batch_owner_witness :
  exists b, ingest clock0 sharedFileCSV = Some b
    /\ forall f, In f (files b) ->
         exists r r0 u,
           firstKept (headerOf sharedFileCSV) (rowItem (headerOf sharedFileCSV))
             (PropertyFile.fileNo f) (dataRows sharedFileCSV) = Some r
           /\ In r (dataRows sharedFileCSV)
           /\ rowKept (headerOf sharedFileCSV) (snd r) = true
           /\ rowItem (headerOf sharedFileCSV) (snd r) = PropertyFile.fileNo f
           /\ (forall r', In r' (dataRows sharedFileCSV) ->
                          rowKept (headerOf sharedFileCSV) (snd r') = true ->
                          rowItem (headerOf sharedFileCSV) (snd r')
                          = PropertyFile.fileNo f ->
                          fst r <= fst r')
           /\ PropertyFile.ownerCNIC f
              = rowRaw (headerOf sharedFileCSV) (snd r)
           /\ firstKept (headerOf sharedFileCSV)
                (rowNorm (headerOf sharedFileCSV))
                (normalizeCNIC (PropertyFile.ownerCNIC f))
                (dataRows sharedFileCSV)
              = Some r0
           /\ u = ownerOfRow (headerOf sharedFileCSV) (snd r0)
           /\ In u (users b)
           /\ PropertyFile.ownerName f = User.name u
           /\ normalizeCNIC (PropertyFile.ownerCNIC f)
              = normalizeCNIC (User.cnic u)
           /\ (forall u', In u' (users b) ->
                          normalizeCNIC (User.cnic u')
                          = normalizeCNIC (PropertyFile.ownerCNIC f) ->
                          u' = u)
           /\ In f (App.userFiles (files b) (Some u)).
Proof.
  apply (owner_linkage_references_batch_owner clock0 sharedFileCSV).
  vm_compute. lia.
Defined.

(** On [sharedFileCSV] the file stays linked to the owner of its first
    row, whatever the later row of the same code says. *)
Lemma shared_file_keeps_its_first_owner :
  exists b f,
    ingest clock0 sharedFileCSV = Some b
    /\ files b = [f]
    /\ PropertyFile.ownerCNIC f = js "35202-1234567-1"
    /\ PropertyFile.ownerName f = js "Ann"
    /\ map User.name (users b) = [js "Ann"; js "Bob"].
Proof.
  destruct (ingest clock0 sharedFileCSV) as [b|] eqn:E;
    vm_compute in E; [|discriminate].
  injection E as <-.
  eexists. eexists. repeat split; reflexivity.
Qed.

(* ================================================================== *)
(** * The ledger of a file *)
(* ================================================================== *)

Lemma indexedFrom_bounds (lines : list jsstring) : forall i,
  StronglySorted lt (map fst (indexedFrom i lines))
  /\ Forall (fun r => i <= fst r < i + length lines) (indexedFrom i lines).
Proof.
  induction lines as [|l lines IH]; intros i; simpl.
  - split; constructor.
  - destruct (IH (S i)) as [HS HF]. split.
    + constructor; [exact HS|]. apply Forall_map.
      revert HF. apply Forall_impl. simpl. intros r Hr. lia.
    + constructor; [simpl; lia|].
      revert HF. apply Forall_impl. intros r Hr. lia.
Qed.

Lemma StronglySorted_filter (p : row -> bool) (rows : list row) :
  StronglySorted lt (map fst rows) ->
  StronglySorted lt (map fst (filter p rows)).
Proof.
  induction rows as [|r rows IH]; simpl; intros H; [constructor|].
  inversion H as [|? ? HS HF]; subst.
  destruct (p r); simpl; [|now apply IH].
  constructor; [now apply IH|].
  rewrite Forall_forall in *. intros x Hx. apply HF.
  apply in_map_iff in Hx. destruct Hx as [y [<- Hy]].
  apply filter_In in Hy. apply in_map. tauto.
Qed.

(** X8: in every file of a batch the two totals are the sums of its own
    ledger lines ([paymentReceived] of the [amount_paid], [balance] of the
    [balduedeb], added in order from 0); every line carries the file's code
    and the file's [plotValue] as [doctotal], and the clock reading of its
    row plus its index as [transid]; the sequence indices increase strictly
    along the ledger and stay below the number of data rows; and every row
    that is not skipped has its line in the file of its code. *)
Theorem ledger_is_consistent now text :
  2 <= length (nonEmptyLines text) ->
  exists b,
    ingest now text = Some b
    /\ (forall f, In f (files b) ->
          PropertyFile.paymentReceived f
          = sumOf (map Transaction.amount_paid (PropertyFile.transactions f))
          /\ PropertyFile.balance f
             = sumOf (map Transaction.balduedeb (PropertyFile.transactions f))
          /\ Forall (fun t => Transaction.itemcode t = PropertyFile.fileNo f
                              /\ Transaction.shortname t = PropertyFile.fileNo f
                              /\ Transaction.doctotal t = PropertyFile.plotValue f
                              /\ Transaction.transid t
                                 = (now (Transaction.seq t)
                                    + Z.of_nat (Transaction.seq t))%Z
                              /\ Transaction.seq t
                                 < length (nonEmptyLines text) - 1)
               (PropertyFile.transactions f)
          /\ StronglySorted lt
               (map Transaction.seq (PropertyFile.transactions f)))
    /\ (forall r, In r (dataRows text) ->
          rowKept (headerOf text) (snd r) = true ->
          exists f, In f (files b)
                    /\ PropertyFile.fileNo f = rowItem (headerOf text) (snd r)
                    /\ In (rowTransaction now (headerOf text)
                             (PropertyFile.plotValue f) r)
                          (PropertyFile.transactions f)).
Proof.
  intros H.
  destruct (ingest_files now text H) as (b & E & _ & _ & _ & F1 & Hf).
  exists b. split; [exact E|]. split.
  - intros f Hin. destruct (Hf f Hin) as (um & [_ H2 H3 H4 _ _] & _).
    set (rows := rowsOf (headerOf text) (PropertyFile.fileNo f) (dataRows text))
      in *.
    destruct (indexedFrom_bounds (tl (nonEmptyLines text)) 0) as [HS HB].
    fold (dataRows text) in HS, HB.
    rewrite H2, H3, H4, !map_map. simpl.
    split; [reflexivity|]. split; [reflexivity|]. split.
    + apply Forall_map. apply Forall_forall. intros r Hr.
      unfold rows, rowsOf in Hr. apply filter_In in Hr. destruct Hr as [Hr Hb].
      apply andb_true_iff in Hb. destruct Hb as [_ Hb].
      apply str_eqb_eq in Hb. simpl.
      rewrite Forall_forall in HB. specialize (HB r Hr).
      assert (L : length (tl (nonEmptyLines text))
                  = length (nonEmptyLines text) - 1)
        by (destruct (nonEmptyLines text); simpl; lia).
      repeat split; auto; lia.
    + apply (StronglySorted_filter _ _ HS).
  - intros r Hr K.
    assert (Hk : In (rowItem (headerOf text) (snd r))
                    (map PropertyFile.fileNo (files b))).
    { apply F1. exists r. auto. }
    apply in_map_iff in Hk. destruct Hk as [f [Hno Hin]].
    exists f. split; [exact Hin|]. split; [exact Hno|].
    destruct (Hf f Hin) as (um & [_ _ _ H4 _ _] & _).
    rewrite H4. apply in_map. unfold rowsOf. apply filter_In.
    split; [exact Hr|]. rewrite K, Hno. now rewrite str_eqb_refl.
Qed.

Lemma ledger_is_consistent_witness :
  exists b,
    ingest clock0 scenarioCSV = Some b
    /\ (forall f, In f (files b) ->
          PropertyFile.paymentReceived f
          = sumOf (map Transaction.amount_paid (PropertyFile.transactions f))
          /\ PropertyFile.balance f
             = sumOf (map Transaction.balduedeb (PropertyFile.transactions f))
          /\ Forall (fun t => Transaction.itemcode t = PropertyFile.fileNo f
                              /\ Transaction.shortname t = PropertyFile.fileNo f
                              /\ Transaction.doctotal t = PropertyFile.plotValue f
                              /\ Transaction.transid t
                                 = (clock0 (Transaction.seq t)
                                    + Z.of_nat (Transaction.seq t))%Z
                              /\ Transaction.seq t
                                 < length (nonEmptyLines scenarioCSV) - 1)
               (PropertyFile.transactions f)
          /\ StronglySorted lt
               (map Transaction.seq (PropertyFile.transactions f)))
    /\ (forall r, In r (dataRows scenarioCSV) ->
          rowKept (headerOf scenarioCSV) (snd r) = true ->
          exists f, In f (files b)
                    /\ PropertyFile.fileNo f
                       = rowItem (headerOf scenarioCSV) (snd r)
                    /\ In (rowTransaction clock0 (headerOf scenarioCSV)
                             (PropertyFile.plotValue f) r)
                          (PropertyFile.transactions f)).
Proof.
  apply (ledger_is_consistent clock0 scenarioCSV). vm_compute. lia.
Defined.

(* ================================================================== *)
(** * Whose files are whose *)
(* ================================================================== *)

Lemma NoDup_map_eq (A : Type) (g : A -> jsstring) (l : list A) (x y : A) :
  NoDup (map g l) -> In x l -> In y l -> g x = g y -> x = y.
Proof.
  induction l as [|a l IH]; simpl; [tauto|].
  intros Hnd. inversion Hnd as [|? ? Hni Hnd']; subst.
  intros [->|Hx] [->|Hy] E; auto.
  - exfalso. apply Hni. rewrite E. now apply in_map.
  - exfalso. apply Hni. rewrite <- E. now apply in_map.
Qed.

Lemma normalizeCNIC_idem (s : jsstring) :
  normalizeCNIC (normalizeCNIC s) = normalizeCNIC s.
Proof.
  unfold normalizeCNIC. induction s as [|c s IH]; simpl; [reflexivity|].
  destruct (isCnicChar c) eqn:E; simpl; [|exact IH]. now rewrite E, IH.
Qed.

(** X9: in a batch every file is among the files of exactly one owner of
    the batch under the owner-to-file match ([userFiles]), and among the
    files of no one when nobody is logged in; every owner key is non-empty
    and holds only digits and [X], and normalizing a key again leaves it as
    it is. *)
Theorem every_file_has_one_owner_view now text :
  2 <= length (nonEmptyLines text) ->
  exists b,
    ingest now text = Some b
    /\ (forall f, In f (files b) ->
          exists u,
            In u (users b)
            /\ In f (userFiles (files b) (Some u))
            /\ forall u', In u' (users b) ->
                          In f (userFiles (files b) (Some u')) -> u' = u)
    /\ userFiles (files b) None = []
    /\ (forall u, In u (users b) ->
          userKey u <> []
          /\ Forall (fun c => isDigit c = true \/ c = 88%N) (userKey u)
          /\ normalizeCNIC (userKey u) = userKey u).
Proof.
  intros H.
  destruct (ingest_files now text H) as (b & E & U2 & U1 & _ & _ & Hf).
  assert (Hmatch : forall u f,
             In f (userFiles (files b) (Some u))
             <-> In f (files b)
                 /\ normalizeCNIC (PropertyFile.ownerCNIC f) = userKey u).
  { intros u f. unfold userFiles. rewrite filter_In, str_eqb_eq.
    unfold userCnicNormalized, orStr, userKey.
    destruct (normalizeCNIC (User.cnic u)); tauto. }
  assert (Hkey : forall u, In u (users b) -> userKey u <> []).
  { intros u Hu.
    assert (Hk : In (userKey u) (map userKey (users b))) by now apply in_map.
    apply U1 in Hk. destruct Hk as (r & _ & K & Hr).
    unfold rowKept in K. apply negb_true_iff, orb_false_iff in K.
    destruct K as [K _]. rewrite <- Hr. intros E0. now rewrite E0 in K. }
  assert (Hown : forall f, In f (files b) ->
             exists u, In u (users b)
                       /\ normalizeCNIC (PropertyFile.ownerCNIC f) = userKey u).
  { intros f Hin. destruct (Hf f Hin) as (um & [_ _ _ _ _ [u [Hu _]]] & Hum).
    destruct (Hum _ _ Hu) as [Hinu Hk]. exists u. auto. }
  exists b. split; [exact E|]. split; [|split].
  - intros f Hin. destruct (Hown f Hin) as [u [Hu Hk]].
    exists u. split; [exact Hu|]. split; [now apply Hmatch|].
    intros u' Hu' Hf'. apply Hmatch in Hf'. destruct Hf' as [_ Hk'].
    apply (NoDup_map_eq userKey (users b)); auto. congruence.
  - unfold userFiles. simpl.
    destruct (filter _ (files b)) as [|f l] eqn:Ef; [reflexivity|].
    exfalso. assert (Hin : In f (f :: l)) by now left.
    rewrite <- Ef in Hin. apply filter_In in Hin. destruct Hin as [Hin Hb].
    apply str_eqb_eq in Hb. destruct (Hown f Hin) as [u [Hu Hk]].
    apply (Hkey u Hu). congruence.
  - intros u Hu. split; [now apply Hkey|]. split.
    + unfold userKey, normalizeCNIC. apply Forall_forall. intros c Hc.
      apply filter_In in Hc. destruct Hc as [_ Hc]. unfold isCnicChar in Hc.
      apply orb_true_iff in Hc. destruct Hc as [Hc|Hc]; [now left|].
      right. now apply N.eqb_eq.
    + apply normalizeCNIC_idem.
Qed.

Lemma every_file_has_one_owner_view_witness :
  exists b,
    ingest clock0 scenarioCSV = Some b
    /\ (forall f, In f (files b) ->
          exists u,
            In u (users b)
            /\ In f (userFiles (files b) (Some u))
            /\ forall u', In u' (users b) ->
                          In f (userFiles (files b) (Some u')) -> u' = u)
    /\ userFiles (files b) None = []
    /\ (forall u, In u (users b) ->
          userKey u <> []
          /\ Forall (fun c => isDigit c = true \/ c = 88%N) (userKey u)
          /\ normalizeCNIC (userKey u) = userKey u).
Proof.
  apply (every_file_has_one_owner_view clock0 scenarioCSV). vm_compute. lia.
Defined.

(* ================================================================== *)
(** * More on the incremental merge *)
(* ================================================================== *)

Section OverlayOrder.
Variable V : Type.
Variable key : V -> jsstring.

Lemma keys_putAll (l : list V) : forall m : map_t V,
  keys (putAll key l m) = fold_left addKey (map key l) (keys m).
Proof.
  unfold putAll. induction l as [|v l IH]; intros m; simpl; [reflexivity|].
  now rewrite IH, keys_set_addKey.
Qed.

Lemma putAll_consistent_nil (l : list V) : consistent key (putAll key l []).
Proof. apply consistent_putAll. constructor. Qed.

Lemma overlay_keys (existing fresh : list V) :
  map key (overlay key existing fresh)
  = firstOccurrences (map key existing ++ map key fresh).
Proof.
  unfold overlay. fold (putAll key existing []).
  fold (putAll key fresh (putAll key existing [])).
  rewrite map_key_values_consistent
    by apply consistent_putAll, putAll_consistent_nil.
  rewrite !keys_putAll. unfold firstOccurrences.
  now rewrite fold_left_app.
Qed.

Lemma putAll_values_app (m2 : map_t V) : forall m1 : map_t V,
  consistent key m2 ->
  NoDup (keys m1 ++ keys m2) ->
  putAll key (values m2) m1 = m1 ++ m2.
Proof.
  unfold putAll, consistent.
  induction m2 as [|[k v] m2 IH]; intros m1 HC Hnd; simpl.
  - now rewrite app_nil_r.
  - inversion HC as [|? ? Hk HC']; subst. simpl in Hk. rewrite Hk.
    assert (Hni : ~ In k (keys m1)).
    { intros Hin. unfold keys in Hnd. simpl in Hnd.
      apply NoDup_remove_2 in Hnd. apply Hnd. apply in_app_iff. now left. }
    rewrite (set_absent key m1 k v Hni), IH; auto.
    + now rewrite <- app_assoc.
    + unfold keys in *. rewrite map_app. simpl in *.
      now rewrite <- app_assoc.
Qed.

Lemma get_None_keys (m : map_t V) (k : jsstring) :
  ~ In k (keys m) -> get m k = None.
Proof.
  intros H. apply has_false_iff in H. unfold has in H.
  now destruct (get m k).
Qed.

Lemma map_t_ext (m : map_t V) : forall m' : map_t V,
  keys m = keys m' ->
  NoDup (keys m) ->
  (forall k, get m k = get m' k) ->
  m = m'.
Proof.
  induction m as [|[k v] m IH]; intros [|[k' v'] m'] Hk Hnd Hg;
    try discriminate; [reflexivity|].
  simpl in Hk. injection Hk as <- Hk.
  inversion Hnd as [|? ? Hni Hnd']; subst.
  assert (Hv := Hg k). simpl in Hv. rewrite str_eqb_refl in Hv.
  injection Hv as <-. f_equal. apply IH; auto.
  intros x. destruct (jsstring_eq_dec k x) as [<-|Hne].
  - rewrite !get_None_keys; auto. now rewrite <- Hk.
  - specialize (Hg x). simpl in Hg. apply str_eqb_neq in Hne.
    now rewrite Hne in Hg.
Qed.

Lemma fold_addKey_present (l acc : list jsstring) :
  (forall k, In k l -> In k acc) -> fold_left addKey l acc = acc.
Proof.
  induction l as [|k l IH]; simpl; intros H; [reflexivity|].
  rewrite addKey_present by (apply H; now left).
  apply IH. intros x Hx. apply H. now right.
Qed.

Lemma overlay_again (existing fresh : list V) :
  overlay key (overlay key existing fresh) fresh
  = overlay key existing fresh.
Proof.
  unfold overlay. fold (putAll key existing []).
  fold (putAll key fresh (putAll key existing [])).
  set (M := putAll key fresh (putAll key existing [])).
  assert (HC : consistent key M)
    by apply consistent_putAll, putAll_consistent_nil.
  assert (HN : NoDup (keys M)).
  { apply NoDup_keys_putAll, NoDup_keys_putAll. constructor. }
  fold (putAll key (values M) []).
  rewrite (putAll_values_app (m2 := M) [] HC HN). simpl.
  fold (putAll key fresh M). f_equal.
  apply map_t_ext.
  - rewrite keys_putAll. apply fold_addKey_present.
    intros k Hk. unfold M. apply In_keys_putAll. now right.
  - now apply NoDup_keys_putAll.
  - intros k. rewrite get_putAll. unfold M at 2. rewrite get_putAll.
    destruct (entityOf key k fresh) eqn:E; [reflexivity|].
    unfold M. now rewrite get_putAll, E.
Qed.

Lemma overlay_disjoint (existing fresh : list V) :
  NoDup (map key existing ++ map key fresh) ->
  overlay key existing fresh = existing ++ fresh.
Proof.
  intros Hnd. unfold overlay. fold (putAll key existing []).
  fold (putAll key fresh (putAll key existing [])).
  assert (HA : values (putAll key existing []) = existing).
  { apply (values_putAll_fresh key existing []). simpl.
    now apply NoDup_app_remove_r in Hnd. }
  rewrite values_putAll_fresh, HA; [reflexivity|].
  rewrite <- (map_key_values_consistent (putAll_consistent_nil existing)), HA.
  exact Hnd.
Qed.

End OverlayOrder.

(** X10: after an incremental import the owners stand in the order in
    which their keys first occur in the existing collection followed by the
    batch, and so do the files: an existing entity keeps its place, also
    when the batch replaces it, and entities with new keys are appended in
    batch order. *)
Theorem merge_keeps_registry_order :
  forall st data,
    map userKey (nextUsers st data None)
    = firstOccurrences (map userKey (st_users st) ++ map userKey (users data))
    /\ map fileKey (nextFiles st data None)
       = firstOccurrences
           (map fileKey (st_allFiles st) ++ map fileKey (files data)).
Proof. intros st data. split; apply overlay_keys. Qed.

(** X11: importing the same batch incrementally a second time changes
    nothing: the owners and files after the second import are those after
    the first. *)
Theorem merge_is_idempotent :
  forall st data,
    let st' := {| st_users := nextUsers st data None;
                  st_allFiles := nextFiles st data None |} in
    nextUsers st' data None = nextUsers st data None
    /\ nextFiles st' data None = nextFiles st data None.
Proof. intros st data. split; apply overlay_again. Qed.

(** X12: when no two entities of the existing collection and the batch
    together share a key, the incremental import gives the existing
    collection followed by the batch, every entity as it was; so an empty
    batch leaves a duplicate-free collection alone. *)
Theorem merge_of_disjoint_keys_appends :
  forall st data,
    (NoDup (map userKey (st_users st) ++ map userKey (users data)) ->
     nextUsers st data None = st_users st ++ users data)
    /\ (NoDup (map fileKey (st_allFiles st) ++ map fileKey (files data)) ->
        nextFiles st data None = st_allFiles st ++ files data).
Proof. intros st data. split; apply overlay_disjoint. Qed.

Lemma merge_of_disjoint_keys_appends_witness :
  nextUsers {| st_users := [ownerOne]; st_allFiles := [] |}
    {| users := [ownerTwo]; files := [] |} None
  = [ownerOne] ++ [ownerTwo].
Proof.
  apply (proj1 (merge_of_disjoint_keys_appends
                  {| st_users := [ownerOne]; st_allFiles := [] |}
                  {| users := [ownerTwo]; files := [] |})).
  repeat constructor; simpl; intuition discriminate.
Defined.

(* ================================================================== *)
(** * One import call, step by step *)
(* ================================================================== *)

(** X13: with the remote mirror disabled an import call never sends an
    upsert, whatever the store does and whichever mode is asked for. *)
Theorem no_upsert_when_mirror_disabled :
  forall w st data flag,
    Forall (fun e => ~ isUpsert e) (fst (handleMassImport w false st data flag)).
Proof.
  intros w st data flag. rewrite handleMassImport_trace. cbv zeta.
  assert (H3 : forall nu nf, Forall (fun e => ~ isUpsert e)
                 [SetIsSyncing true; SetUsers nu; SetAllFiles nf])
    by (intros; repeat constructor; simpl; tauto).
  apply Forall_app. split; [apply H3|].
  apply Forall_app. split; [apply storeEvent_not_upsert, setItem_events|].
  destruct (snd (AsyncStorage.setItem w (js "users") _));
    [|constructor|constructor].
  apply Forall_app. split; [apply storeEvent_not_upsert, setItem_events|].
  destruct (snd (AsyncStorage.setItem w (js "files") _));
    [|constructor|constructor].
  simpl. constructor; [simpl; tauto | constructor].
Qed.

(** X14: when the database opens and both writes complete, an import call
    does, in this order: set the busy flag, set the owners and the files in
    memory, write the owners under [users] and the files under [files],
    then, if the mirror is enabled, send the owners to table [profiles] and
    the files to table [property_files], and clear the busy flag; its
    promise is fulfilled. *)
Theorem import_call_when_the_store_works w cloud st data flag :
  openDB w = Fulfilled tt ->
  putTx w (js "users") = TxComplete ->
  putTx w (js "files") = TxComplete ->
  let nu := nextUsers st data flag in
  let nf := nextFiles st data flag in
  handleMassImport w cloud st data flag
  = ([SetIsSyncing true; SetUsers nu; SetAllFiles nf;
      IdbOpen; StorePut (js "users") (UsersData nu);
      IdbOpen; StorePut (js "files") (FilesData nf)]
     ++ (if cloud
         then [SetIsSyncing true; Upsert (js "profiles") (UsersData nu);
               SetIsSyncing true; Upsert (js "property_files") (FilesData nf)]
         else [])
     ++ [SetIsSyncing false],
     Fulfilled tt).
Proof.
  intros Ho Hu Hf nu nf.
  unfold handleMassImport, AsyncStorage.setItem, AsyncStorage.getDB,
    resolveWith, tryCatch, bind, newPromise, emit, emitAll, ret, syncToCloud.
  fold nu. fold nf. rewrite Ho, Hu, Hf. destruct cloud; reflexivity.
Qed.

Lemma import_call_when_the_store_works_witness :
  handleMassImport workingStore true emptyState emptyBatch None
  = ([SetIsSyncing true; SetUsers []; SetAllFiles [];
      IdbOpen; StorePut (js "users") (UsersData []);
      IdbOpen; StorePut (js "files") (FilesData [])]
     ++ [SetIsSyncing true; Upsert (js "profiles") (UsersData []);
         SetIsSyncing true; Upsert (js "property_files") (FilesData [])]
     ++ [SetIsSyncing false],
     Fulfilled tt).
Proof.
  exact (import_call_when_the_store_works workingStore true emptyState
           emptyBatch None eq_refl eq_refl eq_refl).
Defined.

(** X15: when the database opens but the transaction that writes the
    owners fails, an import call has already replaced the owners and the
    files in memory; it then stops: its promise is rejected with the
    transaction's error, the files are never written, the mirror is never
    called, and the busy flag it set is not cleared. *)
Theorem import_call_when_the_first_write_fails w cloud st data flag e :
  openDB w = Fulfilled tt ->
  putTx w (js "users") = TxError e ->
  let nu := nextUsers st data flag in
  let nf := nextFiles st data flag in
  handleMassImport w cloud st data flag
  = ([SetIsSyncing true; SetUsers nu; SetAllFiles nf;
      IdbOpen; StorePut (js "users") (UsersData nu)],
     Rejected e)
  /\ applyEvents st (fst (handleMassImport w cloud st data flag))
     = {| st_users := nu; st_allFiles := nf |}.
Proof.
  intros Ho Hu nu nf.
  assert (E : handleMassImport w cloud st data flag
              = ([SetIsSyncing true; SetUsers nu; SetAllFiles nf;
                  IdbOpen; StorePut (js "users") (UsersData nu)],
                 Rejected e)).
  { unfold handleMassImport, AsyncStorage.setItem, AsyncStorage.getDB,
      resolveWith, tryCatch, bind, newPromise, emit, emitAll, ret.
    fold nu. fold nf. rewrite Ho, Hu. reflexivity. }
  split; [exact E|]. rewrite E. reflexivity.
Qed.

Lemma import_call_when_the_first_write_fails_witness :
  handleMassImport (failingStore (js "QuotaExceededError")) true emptyState
    emptyBatch (Some true)
  = ([SetIsSyncing true; SetUsers []; SetAllFiles [];
      IdbOpen; StorePut (js "users") (UsersData [])],
     Rejected (js "QuotaExceededError"))
  /\ applyEvents emptyState
       (fst (handleMassImport (failingStore (js "QuotaExceededError")) true
               emptyState emptyBatch (Some true)))
     = {| st_users := []; st_allFiles := [] |}.
Proof.
  exact (import_call_when_the_first_write_fails
           (failingStore (js "QuotaExceededError")) true emptyState emptyBatch
           (Some true) (e := js "QuotaExceededError") eq_refl eq_refl).
Defined.

(** X16: exactly which failures leave the local store's operations.  The
    promise of [setItem] is rejected with [e] if and only if the database
    opened and the transaction threw or failed with [e]; that of [getItem]
    if and only if the database opened and the request threw or failed
    with [e]; that of [clear] if and only if opening was rejected with [e],
    or the database opened and starting the transaction threw [e].
    [getItem] answers a stored value only when the database opened and the
    request succeeded with that value. *)
Theorem which_storage_failures_escape :
  (forall w key value e,
      snd (AsyncStorage.setItem w key value) = Rejected e
      <-> openDB w = Fulfilled tt
          /\ (putTx w key = TxThrows e \/ putTx w key = TxError e))
  /\ (forall w key e,
         snd (AsyncStorage.getItem w key) = Rejected e
         <-> openDB w = Fulfilled tt
             /\ (getReq w key = ReqThrows e \/ getReq w key = ReqError e))
  /\ (forall w e,
         snd (AsyncStorage.clear w) = Rejected e
         <-> openDB w = Rejected e
             \/ (openDB w = Fulfilled tt /\ clearThrows w = Some e))
  /\ (forall w key v,
         snd (AsyncStorage.getItem w key) = Fulfilled (Some v)
         <-> openDB w = Fulfilled tt /\ getReq w key = ReqSuccess (Some v)).
Proof.
  split; [|split; [|split]]; intros;
    unfold AsyncStorage.setItem, AsyncStorage.getItem, AsyncStorage.clear,
      AsyncStorage.getDB, resolveWith, tryCatch, bind, newPromise, emit, ret;
    destruct (openDB w) as [[]| |]; simpl;
    try destruct (putTx w key); try destruct (getReq w key);
    try destruct (clearThrows w); simpl;
    (split;
     [ intros H; try discriminate; try (injection H as ->);
       intuition congruence
     | intros H; intuition congruence ]).
Qed.

(* ================================================================== *)
(** * Messages shown to a user *)
(* ================================================================== *)

Lemma filter_filter_implied (A : Type) (p q : A -> bool) (l : list A) :
  (forall x, p x = true -> q x = true) ->
  filter p (filter q l) = filter p l.
Proof.
  intros H. induction l as [|x l IH]; simpl; [reflexivity|].
  destruct (q x) eqn:Eq; simpl.
  - now rewrite IH.
  - destruct (p x) eqn:Ep; [|exact IH].
    apply H in Ep. congruence.
Qed.

(** X17: the unread count of a user is the number of unread messages
    addressed to the user's own identifier among all messages: hiding the
    messages of others loses none of them, and a broadcast (receiver
    [ALL]) counts for nobody but a user whose identifier is [ALL].  An
    administrator sees every message; anyone else sees a message only if it
    is addressed to them or to [ALL], or was sent by them. *)
Theorem unread_count_and_visibility :
  forall (Message : Type) (receiverId senderId : Message -> jsstring)
         (isRead : Message -> bool) (messages : list Message) (user : User.t),
    Inbox.unreadCount receiverId senderId isRead messages user
    = length (filter (fun m => negb (isRead m)
                               && str_eqb (receiverId m) (User.id user))
                messages)
    /\ (User.role user = js "ADMIN" ->
        Inbox.visibleMessages receiverId senderId messages user = messages)
    /\ (User.role user <> js "ADMIN" ->
        forall m, In m (Inbox.visibleMessages receiverId senderId messages user)
                  <-> In m messages
                      /\ (receiverId m = User.id user
                          \/ receiverId m = js "ALL"
                          \/ senderId m = User.id user)).
Proof.
  intros Message receiverId senderId isRead messages user.
  unfold Inbox.unreadCount, Inbox.visibleMessages. split; [|split].
  - f_equal. apply filter_filter_implied. intros m Hm.
    apply andb_true_iff in Hm. destruct Hm as [_ Hm]. rewrite Hm.
    now rewrite orb_true_r.
  - intros ->. rewrite str_eqb_refl. simpl.
    induction messages as [|m l IH]; simpl; [reflexivity|]. now rewrite IH.
  - intros Hr m. apply str_eqb_neq in Hr. rewrite Hr. simpl.
    rewrite filter_In, !orb_true_iff, !str_eqb_eq. tauto.
Qed.

(* ================================================================== *)
(** * Start-up and factory reset *)
(* ================================================================== *)

Section LifecycleFacts.
Variable Notice : Type.
Variable Message : Type.
Variable seed : Lifecycle.seeds Notice Message.

Local Abbreviation boot := (Lifecycle.bootstrap seed).
Local Abbreviation after c :=
  (Lifecycle.applyEvents (Lifecycle.initialState Notice Message) (fst c)).

(** X18: start-up without the remote mirror.  When the four reads of the
    local store are fulfilled and the session marker, if any, can be read,
    start-up ends normally with the loading flag cleared; each collection
    is what the store held, an empty array included, and the seed
    collection only where the store held nothing, so with an empty store
    the four collections are exactly the seeds; the active user is the
    first owner of the loaded (or seed) owners whose identifier is the
    marker's, and nobody without a marker or a match. *)
Theorem bootstrap_from_local_store :
  forall lu lf ln lm o fu ff,
    let c := boot (fulfilledReads lu lf ln lm) (readableMarker o)
               (Lifecycle.mkRemote false fu ff) in
    snd c = Fulfilled tt
    /\ after c
       = Lifecycle.mkRoot false
           (Lifecycle.orSeed lu (Lifecycle.MOCK_USERS seed))
           (Lifecycle.orSeed lf (Lifecycle.MOCK_FILES seed))
           (Lifecycle.orSeed ln (Lifecycle.MOCK_NOTICES seed))
           (Lifecycle.orSeed lm (Lifecycle.MOCK_MESSAGES seed))
           (match o with
            | Some id =>
                Lifecycle.findUser
                  (Lifecycle.orSeed lu (Lifecycle.MOCK_USERS seed)) id
            | None => None
            end)
    /\ (lu = None -> lf = None -> ln = None -> lm = None ->
        Lifecycle.users (after c) = Lifecycle.MOCK_USERS seed
        /\ Lifecycle.allFiles (after c) = Lifecycle.MOCK_FILES seed
        /\ Lifecycle.notices (after c) = Lifecycle.MOCK_NOTICES seed
        /\ Lifecycle.messages (after c) = Lifecycle.MOCK_MESSAGES seed).
Proof.
  intros lu lf ln lm o fu ff c.
  assert (E : snd c = Fulfilled tt
              /\ after c
                 = Lifecycle.mkRoot false
                     (Lifecycle.orSeed lu (Lifecycle.MOCK_USERS seed))
                     (Lifecycle.orSeed lf (Lifecycle.MOCK_FILES seed))
                     (Lifecycle.orSeed ln (Lifecycle.MOCK_NOTICES seed))
                     (Lifecycle.orSeed lm (Lifecycle.MOCK_MESSAGES seed))
                     (match o with
                      | Some id =>
                          Lifecycle.findUser
                            (Lifecycle.orSeed lu (Lifecycle.MOCK_USERS seed)) id
                      | None => None
                      end)).
  { unfold c, after, boot, Lifecycle.bootstrap. destruct o as [id|]; simpl.
    - destruct (Lifecycle.findUser _ id); simpl; split; reflexivity.
    - split; reflexivity. }
  destruct E as [E1 E2]. split; [exact E1|]. split; [exact E2|].
  intros -> -> -> ->. rewrite E2. simpl. repeat split.
Qed.

(** X19: start-up with the remote mirror.  When the reads are fulfilled,
    the marker can be read and both fetches are fulfilled, a fetched list
    that is not empty replaces the collection outright, and an empty or
    missing one leaves the local (or seed) collection; notices and messages
    are never fetched.  The active user is still looked up among the local
    (or seed) owners, not among the fetched ones. *)
Theorem bootstrap_with_remote_mirror :
  forall lu lf ln lm o cu cf,
    let c := boot (fulfilledReads lu lf ln lm) (readableMarker o)
               (Lifecycle.mkRemote true (Fulfilled cu) (Fulfilled cf)) in
    snd c = Fulfilled tt
    /\ after c
       = Lifecycle.mkRoot false
           (if Lifecycle.hasLength cu then Lifecycle.orSeed cu []
            else Lifecycle.orSeed lu (Lifecycle.MOCK_USERS seed))
           (if Lifecycle.hasLength cf then Lifecycle.orSeed cf []
            else Lifecycle.orSeed lf (Lifecycle.MOCK_FILES seed))
           (Lifecycle.orSeed ln (Lifecycle.MOCK_NOTICES seed))
           (Lifecycle.orSeed lm (Lifecycle.MOCK_MESSAGES seed))
           (match o with
            | Some id =>
                Lifecycle.findUser
                  (Lifecycle.orSeed lu (Lifecycle.MOCK_USERS seed)) id
            | None => None
            end).
Proof.
  intros lu lf ln lm o cu cf c.
  unfold c, after, boot, Lifecycle.bootstrap.
  destruct o as [id|]; simpl;
    try destruct (Lifecycle.findUser _ id); simpl;
    destruct (Lifecycle.hasLength cu); simpl;
    destruct (Lifecycle.hasLength cf); simpl; split; reflexivity.
Qed.

(** X20: what failures do to start-up.  If one of the four reads is
    rejected (the earlier ones fulfilled), the error is logged and nothing
    is loaded: the four collections stay empty, they are not the seeds.  If
    the session marker cannot be read, the local (or seed) collections are
    loaded, nobody is logged in and the mirror is not consulted, even when
    it is enabled.  If a fetch from the mirror is rejected, the local (or
    seed) collections stay, and so does the active user found with a
    readable marker, if any.  In all these cases start-up ends normally
    with the loading flag cleared. *)
Theorem bootstrap_failures :
  (forall r s c e,
      (Lifecycle.readUsers r = Rejected e
       \/ (exists lu, Lifecycle.readUsers r = Fulfilled lu
                      /\ (Lifecycle.readFiles r = Rejected e
           \/ (exists lf, Lifecycle.readFiles r = Fulfilled lf
                          /\ (Lifecycle.readNotices r = Rejected e
               \/ (exists ln, Lifecycle.readNotices r = Fulfilled ln
                              /\ Lifecycle.readMessages r = Rejected e)))))) ->
      boot r s c
      = ([Lifecycle.SetIsLoading true;
          Lifecycle.ConsoleError (js "Registry Load Error:") e;
          Lifecycle.SetIsLoading false], Fulfilled tt)
      /\ after (boot r s c) = Lifecycle.mkRoot false [] [] [] [] None)
  /\ (forall lu lf ln lm c e,
         let b := boot (fulfilledReads lu lf ln lm) (Lifecycle.BadMarker e) c in
         snd b = Fulfilled tt
         /\ after b
            = Lifecycle.mkRoot false
                (Lifecycle.orSeed lu (Lifecycle.MOCK_USERS seed))
                (Lifecycle.orSeed lf (Lifecycle.MOCK_FILES seed))
                (Lifecycle.orSeed ln (Lifecycle.MOCK_NOTICES seed))
                (Lifecycle.orSeed lm (Lifecycle.MOCK_MESSAGES seed))
                None)
  /\ (forall lu lf ln lm o fu ff e,
         fu = Rejected e \/ (exists cu, fu = Fulfilled cu /\ ff = Rejected e) ->
         let b := boot (fulfilledReads lu lf ln lm) (readableMarker o)
                    (Lifecycle.mkRemote true fu ff) in
         snd b = Fulfilled tt
         /\ after b
            = Lifecycle.mkRoot false
                (Lifecycle.orSeed lu (Lifecycle.MOCK_USERS seed))
                (Lifecycle.orSeed lf (Lifecycle.MOCK_FILES seed))
                (Lifecycle.orSeed ln (Lifecycle.MOCK_NOTICES seed))
                (Lifecycle.orSeed lm (Lifecycle.MOCK_MESSAGES seed))
                (match o with
                 | Some id =>
                     Lifecycle.findUser
                       (Lifecycle.orSeed lu (Lifecycle.MOCK_USERS seed)) id
                 | None => None
                 end)).
Proof.
  split; [|split].
  - intros r s c e H.
    assert (E : boot r s c
                = ([Lifecycle.SetIsLoading true;
                    Lifecycle.ConsoleError (js "Registry Load Error:") e;
                    Lifecycle.SetIsLoading false], Fulfilled tt)).
    { unfold boot, Lifecycle.bootstrap.
      destruct H as [H|[lu [Hu [H|[lf [Hf [H|[ln [Hn H]]]]]]]]];
        rewrite ?Hu, ?Hf, ?Hn, H; reflexivity. }
    split; [exact E|]. unfold after. rewrite E. reflexivity.
  - intros lu lf ln lm c e b. unfold b, after, boot, Lifecycle.bootstrap.
    split; reflexivity.
  - intros lu lf ln lm o fu ff e H b. unfold b, after, boot, Lifecycle.bootstrap.
    destruct H as [-> | [cu [-> ->]]]; destruct o as [id|]; simpl;
      try destruct (Lifecycle.findUser _ id); simpl; split; reflexivity.
Qed.

(** X21: start-up never throws: its promise is never rejected, whatever
    the store, the session marker and the mirror do; and whenever it ends,
    the last thing it did was to clear the loading flag. *)
Theorem bootstrap_always_gets_ready :
  forall r s c,
    (forall e, snd (Lifecycle.bootstrap seed r s c) <> Rejected e)
    /\ (snd (Lifecycle.bootstrap seed r s c) = Fulfilled tt ->
        (exists tr,
            fst (Lifecycle.bootstrap seed r s c)
            = tr ++ [Lifecycle.SetIsLoading false])
        /\ Lifecycle.isLoading (after (Lifecycle.bootstrap seed r s c))
           = false).
Proof.
  intros r s c.
  assert (K : forall body : Lifecycle.life Notice Message unit,
             let b := Lifecycle.bind (Lifecycle.emit (Lifecycle.SetIsLoading true))
                        (fun _ =>
                           Lifecycle.finally
                             (Lifecycle.tryCatch body
                                (fun err =>
                                   Lifecycle.emit
                                     (Lifecycle.ConsoleError
                                        (js "Registry Load Error:") err)))
                             [Lifecycle.SetIsLoading false]) in
             (forall e, snd b <> Rejected e)
             /\ (snd b = Fulfilled tt ->
                 (exists tr, fst b = tr ++ [Lifecycle.SetIsLoading false])
                 /\ Lifecycle.isLoading
                      (Lifecycle.applyEvents
                         (Lifecycle.initialState Notice Message) (fst b))
                    = false)).
  { intros [tr [[]| |]]; simpl; (split; [discriminate|]); intros H;
      try discriminate.
    - split; [exists (Lifecycle.SetIsLoading true :: tr); reflexivity|].
      unfold Lifecycle.applyEvents. simpl. now rewrite fold_left_app.
    - split; [exists (Lifecycle.SetIsLoading true
                        :: tr ++ [Lifecycle.ConsoleError
                                    (js "Registry Load Error:") e]);
              simpl; now rewrite <- app_assoc|].
      unfold Lifecycle.applyEvents. simpl. now rewrite !fold_left_app. }
  apply K.
Qed.

(** X22: factory reset.  If the user declines, nothing happens.  If the
    user confirms and the database opens and its transaction starts, the
    store is cleared, the four collections become the seeds and the user is
    told; the logged-in user and the loading flag are left as they are.
    If opening the database is rejected, or starting the transaction
    throws, the reset stops there: its promise is rejected, no collection
    is reseeded and nothing is reported. *)
Theorem factory_reset :
  (forall w, Lifecycle.handleResetDatabase seed false w = ([], Fulfilled tt))
  /\ (forall put get st,
         let c := Lifecycle.handleResetDatabase seed true
                    (mkIdb (Fulfilled tt) put get None) in
         c = ([Lifecycle.Store IdbOpen; Lifecycle.Store StoreClear;
               Lifecycle.SetUsers (Lifecycle.MOCK_USERS seed);
               Lifecycle.SetAllFiles (Lifecycle.MOCK_FILES seed);
               Lifecycle.SetNotices (Lifecycle.MOCK_NOTICES seed);
               Lifecycle.SetMessages (Lifecycle.MOCK_MESSAGES seed);
               Lifecycle.Alert (js "Registry Purged.")], Fulfilled tt)
         /\ Lifecycle.applyEvents st (fst c)
            = Lifecycle.mkRoot (Lifecycle.isLoading st)
                (Lifecycle.MOCK_USERS seed) (Lifecycle.MOCK_FILES seed)
                (Lifecycle.MOCK_NOTICES seed) (Lifecycle.MOCK_MESSAGES seed)
                (Lifecycle.user st))
  /\ (forall w e st,
         openDB w = Rejected e
         \/ (openDB w = Fulfilled tt /\ clearThrows w = Some e) ->
         let c := Lifecycle.handleResetDatabase seed true w in
         snd c = Rejected e
         /\ Lifecycle.applyEvents st (fst c) = st
         /\ fst c = [Lifecycle.Store IdbOpen]).
Proof.
  split; [reflexivity|]. split.
  - intros put get st c. unfold c. split; reflexivity.
  - intros w e st H c. unfold c, Lifecycle.handleResetDatabase,
      Lifecycle.ofStore, AsyncStorage.clear, AsyncStorage.getDB, bind.
    destruct H as [-> | [-> ->]]; simpl; repeat split.
Qed.

End LifecycleFacts.

Lemma bootstrap_failures_witness :
  Lifecycle.bootstrap demoSeeds
    (Lifecycle.mkReads (Fulfilled None) (Rejected (js "AbortError"))
       (Fulfilled None) (Fulfilled None))
    Lifecycle.NoMarker (Lifecycle.mkRemote false Pending Pending)
  = ([Lifecycle.SetIsLoading true;
      Lifecycle.ConsoleError (js "Registry Load Error:") (js "AbortError");
      Lifecycle.SetIsLoading false], Fulfilled tt)
  /\ Lifecycle.applyEvents (Lifecycle.initialState unit unit)
       (fst (Lifecycle.bootstrap demoSeeds
               (Lifecycle.mkReads (Fulfilled None)
                  (Rejected (js "AbortError")) (Fulfilled None)
                  (Fulfilled None))
               Lifecycle.NoMarker (Lifecycle.mkRemote false Pending Pending)))
     = Lifecycle.mkRoot false [] [] [] [] None.
Proof.
  apply (proj1 (bootstrap_failures demoSeeds)).
  right. exists None. split; [reflexivity|]. left. reflexivity.
Defined.

Lemma bootstrap_always_gets_ready_witness :
  (exists tr,
      fst (Lifecycle.bootstrap demoSeeds (fulfilledReads None None None None)
             Lifecycle.NoMarker (Lifecycle.mkRemote false Pending Pending))
      = tr ++ [Lifecycle.SetIsLoading false])
  /\ Lifecycle.isLoading
       (Lifecycle.applyEvents (Lifecycle.initialState unit unit)
          (fst (Lifecycle.bootstrap demoSeeds
                  (fulfilledReads None None None None) Lifecycle.NoMarker
                  (Lifecycle.mkRemote false Pending Pending))))
     = false.
Proof.
  apply (proj2 (bootstrap_always_gets_ready demoSeeds
                  (fulfilledReads None None None None) Lifecycle.NoMarker
                  (Lifecycle.mkRemote false Pending Pending))).
  reflexivity.
Defined.

Lemma factory_reset_witness :
  let c := Lifecycle.handleResetDatabase demoSeeds true
             (mkIdb (Rejected (js "InvalidStateError")) (fun _ => TxComplete)
                (fun _ => ReqSuccess None) None) in
  snd c = Rejected (js "InvalidStateError")
  /\ Lifecycle.applyEvents (Lifecycle.initialState unit unit) (fst c)
     = Lifecycle.initialState unit unit
  /\ fst c = [Lifecycle.Store IdbOpen].
Proof.
  apply (proj2 (proj2 (factory_reset demoSeeds))).
  left. reflexivity.
Defined.
